(** * Trace2Config: feature-model compilation and variant synthesis

    A shallow embedding of [Trace2Config-Synthesis.py].  The XML feature
    model is a rose tree of elements, the Z3 terms the script builds are a
    small syntax with a denotation in a model, and the solver is an oracle
    whose answers are sound.

    The inputs read from disk are parameters: the parsed document and the
    record of empirical bounds.  The script is modelled at two levels.  In
    [EmpiricalBounds] every float is finite and is the rational Z3 is given
    (the exact value of its decimal writing), as are the cost constants 1.2,
    0.9, ... of the latency model.  In [Raw.EmpiricalBounds] a float may also
    be NaN or infinite, as the aggregation of an empty or all-NaN column
    makes it; there [int] and the construction of a Z3 numeral can raise,
    and [Raw.synthesize_variant] reports the exception.  On the floats it
    reads being finite, the second level is the first. *)

From Stdlib Require Import QArith Qround Qminmax.
From stdpp Require Import gmap strings list sorting.

Set Warnings "-register-all".
Local Open Scope Z_scope.

(** ** The parsed XML document (lxml element tree) *)

Inductive element : Type :=
  Element (tag : string) (attrib : list (string * string)) (kids : list element).

Definition etag (e : element) : string :=
  match e with Element t _ _ => t end.

Definition eattrib (e : element) : list (string * string) :=
  match e with Element _ a _ => a end.

Definition echildren (e : element) : list element :=
  match e with Element _ _ k => k end.

(** [e.get(key)]: the attribute value, or Python's [None]. *)
Fixpoint assoc_get (key : string) (a : list (string * string)) : option string :=
  match a with
  | [] => None
  | (k, v) :: a' => if String.eqb k key then Some v else assoc_get key a'
  end.

Definition get (e : element) (key : string) : option string :=
  assoc_get key (eattrib e).

Definition has_attr (key : string) (e : element) : bool :=
  match get e key with Some _ => true | None => false end.

(** All element descendants of [e], in document order, [e] excluded: the
    node set of the XPath step [.//*]. *)
Fixpoint descendants (e : element) : list element :=
  match e with
  | Element _ _ k => flat_map (fun c => c :: descendants c) k
  end.

(** [root.xpath(".//*[@name]")] *)
Definition xpath_named (root : element) : list element :=
  List.filter (has_attr "name") (descendants root).

(** [root.xpath(".//t")] for a tag [t] *)
Definition xpath_desc (t : string) (root : element) : list element :=
  List.filter (fun e => String.eqb (etag e) t) (descendants root).

(** [alt.xpath("./feature[@name]")] *)
Definition xpath_feature_children (alt : element) : list element :=
  List.filter (fun e => String.eqb (etag e) "feature" && has_attr "name" e)
              (echildren alt).

(** ** Z3 terms and their value in a model *)

Module Z3.

Inductive bexpr : Type :=
| BoolVal (b : bool)
| Bool (name : string)
| Or (args : list bexpr)
| And (a b : bexpr)
| Not (a : bexpr)
| Implies (a b : bexpr)
| EqB (a b : bexpr)
| EqA (x y : aexpr)
| Le (x y : aexpr)
| Ge (x y : aexpr)
with aexpr : Type :=
| IntVal (z : Z)
| RealVal (q : Q)
| Int (name : string)
| Real (name : string)
| If (c : bexpr) (t e : aexpr)
| Add (x y : aexpr)
| Sum (args : list aexpr).

(** A model interprets the constants of each sort; a [Bool], an [Int] and
    a [Real] constant of the same name are three different constants. *)
Record model : Type := Model {
  bool_val : string -> bool;
  int_val : string -> Z;
  real_val : string -> Q
}.

Fixpoint beval (m : model) (e : bexpr) : bool :=
  match e with
  | BoolVal b => b
  | Bool x => bool_val m x
  | Or args => existsb (beval m) args
  | And a b => beval m a && beval m b
  | Not a => negb (beval m a)
  | Implies a b => implb (beval m a) (beval m b)
  | EqB a b => Bool.eqb (beval m a) (beval m b)
  | EqA x y => Qeq_bool (aeval m x) (aeval m y)
  | Le x y => Qle_bool (aeval m x) (aeval m y)
  | Ge x y => Qle_bool (aeval m y) (aeval m x)
  end
with aeval (m : model) (e : aexpr) : Q :=
  match e with
  | IntVal z => inject_Z z
  | RealVal q => q
  | Int x => inject_Z (int_val m x)
  | Real x => real_val m x
  | If c t e => if beval m c then aeval m t else aeval m e
  | Add x y => Qplus (aeval m x) (aeval m y)
  | Sum args => fold_right (fun a acc => Qplus (aeval m a) acc) (0#1)%Q args
  end.

(** A model satisfies a list of assertions when each evaluates to true. *)
Definition holds_all (m : model) (cs : list bexpr) : bool :=
  forallb (beval m) cs.

Definition satisfiable (cs : list bexpr) : Prop :=
  exists m, holds_all m cs = true.

(** The answer of [Solver.check()], with the model of [Solver.model()]. *)
Inductive check_result : Type :=
| sat (m : model)
| unsat
| unknown.

End Z3.

Import Z3.

(** The solver is used as an oracle: a [sat] answer comes with a model of
    the assertions, an [unsat] answer means there is none. *)
Class Solver : Type := {
  check : list bexpr -> check_result;
  check_sat_sound : forall cs m, check cs = sat m -> holds_all m cs = true;
  check_unsat_sound : forall cs, check cs = unsat -> ~ satisfiable cs
}.

(** ** Python values used by the script *)

(** [int(x)] on a float: truncation toward zero. *)
Definition py_int (x : Q) : Z := Z.quot (Qnum x) (Zpos (Qden x)).

(** [min(a, b)]: the first argument unless the second is strictly smaller. *)
Definition py_min (a b : Q) : Q := if Qlt_le_dec b a then b else a.

(** Order of [sorted] on strings. *)
Definition str_le (a b : string) : Prop := String.leb a b = true.

#[global] Instance str_le_dec : RelDecision str_le.
Proof. intros a b. unfold str_le. apply _. Defined.

Definition sorted (s : gset string) : list string :=
  merge_sort str_le (elements s).

(** [d[key]] where [key] may be [None]; [None] as a result is [KeyError]. *)
Definition getitem (d : gmap string bexpr) (key : option string) : option bexpr :=
  k ← key; d !! k.

(** ** Empirical bounds *)

(** The record with every float finite, each field the rational Z3 is given
    for it.  Floats that are NaN or infinite are in [Raw.EmpiricalBounds]
    below. *)
Record EmpiricalBounds : Type := {
  d1_mean_period_ms : Q;
  d1_min_interarrival_ms : Q;
  d1_max_interarrival_ms : Q;
  d2_max_auth_latency_ms : Q;
  d2_max_jitter_ms : Q;
  d3_max_latency_by_variant : gmap string Q;
  d4_min_replay_interval_ms : Q
}.

(** ** Feature model compiler *)

Definition feature_names (root : element) : gset string :=
  list_to_set (omap (fun f => get f "name") (xpath_named root)).

Definition feature_vars_of (names : gset string) : gmap string bexpr :=
  list_to_map ((fun name => (name, Bool name)) <$> sorted names).

Definition indicator (c : bexpr) : aexpr := If c (IntVal 1) (IntVal 0).

(** Body of the loop over alternative groups: the assertions one [alt]
    element contributes. *)
Definition alt_constraints (feature_vars : gmap string bexpr) (alt : element)
  : option (list bexpr) :=
  children ← mapM (fun c => getitem feature_vars (get c "name"))
                  (xpath_feature_children alt);
  Some (match children with
        | [] => []
        | _ => [Or children; EqA (Sum (indicator <$> children)) (IntVal 1)]
        end).

(** Bodies of the loops over [requires] and [excludes] edges. *)
Definition requires_constraints (feature_vars : gmap string bexpr) (req : element)
  : list bexpr :=
  match getitem feature_vars (get req "a"), getitem feature_vars (get req "b") with
  | Some va, Some vb => [Implies va vb]
  | _, _ => []
  end.

Definition excludes_constraints (feature_vars : gmap string bexpr) (exc : element)
  : list bexpr :=
  match getitem feature_vars (get exc "a"), getitem feature_vars (get exc "b") with
  | Some va, Some vb => [Not (And va vb)]
  | _, _ => []
  end.

Definition compile_feature_model (root : element)
  : option (gmap string bexpr * list bexpr) :=
  let feature_vars := feature_vars_of (feature_names root) in
  alts ← mapM (alt_constraints feature_vars) (xpath_desc "alt" root);
  Some (feature_vars,
        concat alts
        ++ flat_map (requires_constraints feature_vars) (xpath_desc "requires" root)
        ++ flat_map (excludes_constraints feature_vars) (xpath_desc "excludes" root)).

(** ** The compiled assertions in closed form *)

(** Names of the [feature] children of an alternative group. *)
Definition alt_child_names (alt : element) : list string :=
  omap (fun c => get c "name") (xpath_feature_children alt).

Definition alt_block (children : list bexpr) : list bexpr :=
  match children with
  | [] => []
  | _ => [Or children; EqA (Sum (indicator <$> children)) (IntVal 1)]
  end.

(** The structural assertions, group by group and edge by edge. *)
Definition fm_constraints_of (root : element) : list bexpr :=
  let feature_vars := feature_vars_of (feature_names root) in
  concat ((fun alt => alt_block (Bool <$> alt_child_names alt))
            <$> xpath_desc "alt" root)
  ++ flat_map (requires_constraints feature_vars) (xpath_desc "requires" root)
  ++ flat_map (excludes_constraints feature_vars) (xpath_desc "excludes" root).

(** ** Variant loader *)

Definition load_variant (variant_name : string) : list (string * bool) :=
  if String.eqb variant_name "V1" then [("CAN", true); ("AES_128", true)]
  else if String.eqb variant_name "V2" then [("CAN_FD", true); ("AES_256", true)]
  else if String.eqb variant_name "V3" then [("SecOC_Protection", true)]
  else [].

(** ** Latency model *)

Definition dict_get (d : gmap string bexpr) (key : string) (dflt : bexpr) : bexpr :=
  default dflt (d !! key).

Definition latency_ms : aexpr := Real "latency_ms".

Definition latency_cost (feature_vars : gmap string bexpr) : aexpr :=
  let MAC_32 := dict_get feature_vars "MAC_32" (BoolVal false) in
  let MAC_64 := dict_get feature_vars "MAC_64" (BoolVal false) in
  let MAC_128 := dict_get feature_vars "MAC_128" (BoolVal false) in
  let AES_128 := dict_get feature_vars "AES_128" (BoolVal false) in
  let AES_256 := dict_get feature_vars "AES_256" (BoolVal false) in
  let Fresh_Counter := dict_get feature_vars "Fresh_Counter" (BoolVal false) in
  let Fresh_Timestamp := dict_get feature_vars "Fresh_Timestamp" (BoolVal false) in
  let mac_cost := If MAC_32 (RealVal (12 # 10))
                    (If MAC_64 (RealVal (22 # 10)) (RealVal (32 # 10))) in
  let aes_cost := If AES_128 (RealVal (9 # 10)) (RealVal (16 # 10)) in
  let fr_cost := If Fresh_Counter (RealVal (7 # 10)) (RealVal (11 # 10)) in
  Add (Add mac_cost aes_cost) fr_cost.

Definition build_latency_model (bounds : EmpiricalBounds)
    (feature_vars : gmap string bexpr) : aexpr * list bexpr :=
  (latency_ms, [EqA latency_ms (latency_cost feature_vars)]).

(** ** End-to-end synthesis *)

Definition freshness_window_ms : aexpr := Int "freshness_window_ms".

Definition req_constraints (feature_vars : gmap string bexpr) : list bexpr :=
  match feature_vars !! "SecOC_Protection" with
  | Some v => [v]
  | None => []
  end.

Definition variant_constraints (feature_vars : gmap string bexpr)
    (vsel : list (string * bool)) : list bexpr :=
  flat_map (fun '(fname, val) =>
              match feature_vars !! fname with
              | Some v => [EqB v (BoolVal val)]
              | None => []
              end) vsel.

(** The upper bound put on the latency variable. *)
Definition cost_upper_bound (bounds : EmpiricalBounds) (variant_name : string) : Q :=
  py_min (d2_max_auth_latency_ms bounds)
         (default (d2_max_auth_latency_ms bounds)
                  (d3_max_latency_by_variant bounds !! variant_name)).

Definition empirical_constraints_with (window_lo : Z) (cost_hi : Q) : list bexpr :=
  [Ge freshness_window_ms (IntVal window_lo); Le latency_ms (RealVal cost_hi)].

Definition empirical_constraints (bounds : EmpiricalBounds) (variant_name : string)
  : list bexpr :=
  empirical_constraints_with (py_int (d1_min_interarrival_ms bounds))
                             (cost_upper_bound bounds variant_name).

(** The list handed to [Solver.add], for given empirical assertions. *)
Definition assertions_with (root : element) (variant_name : string)
    (bounds : EmpiricalBounds) (empirical : list bexpr)
  : option (gmap string bexpr * list bexpr) :=
  '(feature_vars, fm_constraints) ← compile_feature_model root;
  let vsel := load_variant variant_name in
  let '(_, latency_constraints) := build_latency_model bounds feature_vars in
  Some (feature_vars,
        fm_constraints ++ req_constraints feature_vars
        ++ variant_constraints feature_vars vsel
        ++ latency_constraints ++ empirical).

Definition assertions (bounds : EmpiricalBounds) (root : element)
    (variant_name : string) : option (gmap string bexpr * list bexpr) :=
  assertions_with root variant_name bounds (empirical_constraints bounds variant_name).

(** The outer [option] is [None] when the script raises; inside, [None] is
    the script's own [None], the infeasible signal. *)
Definition synthesize_variant `{Solver} (bounds : EmpiricalBounds) (root : element)
    (variant_name : string) : option (option (gmap string bool)) :=
  match assertions bounds root variant_name with
  | Some (feature_vars, cs) =>
      Some (match check cs with
            | sat m => Some (beval m <$> feature_vars)
            | _ => None
            end)
  | None => None
  end.

(** ** An executable solver

    A search over candidate models read off the assertions: every truth
    assignment of the Boolean constants that occur, the integer lower
    bounds that occur, and the values of the right-hand sides of equations
    defining a real constant.  It answers [sat] only with a model it has
    checked and [unknown] otherwise, so it is an instance of the oracle and
    the synthesis can be run with it. *)

Fixpoint bool_consts (e : bexpr) : list string :=
  match e with
  | BoolVal _ => []
  | Bool x => [x]
  | Or args => flat_map bool_consts args
  | And a b | Implies a b | EqB a b => bool_consts a ++ bool_consts b
  | Not a => bool_consts a
  | EqA x y | Le x y | Ge x y => arith_bool_consts x ++ arith_bool_consts y
  end
with arith_bool_consts (e : aexpr) : list string :=
  match e with
  | IntVal _ | RealVal _ | Int _ | Real _ => []
  | If c t e => bool_consts c ++ arith_bool_consts t ++ arith_bool_consts e
  | Add x y => arith_bool_consts x ++ arith_bool_consts y
  | Sum args => flat_map arith_bool_consts args
  end.

Fixpoint sublists (l : list string) : list (list string) :=
  match l with
  | [] => [[]]
  | x :: l' => let r := sublists l' in r ++ (cons x <$> r)
  end.

Definition int_candidates (cs : list bexpr) : list Z :=
  0 :: omap (fun c => match c with Ge (Int _) (IntVal z) => Some z | _ => None end) cs.

Definition real_candidates (m : model) (cs : list bexpr) : list Q :=
  omap (fun c => match c with EqA (Real _) rhs => Some (aeval m rhs) | _ => None end) cs
  ++ [0%Q].

Definition candidate_models (cs : list bexpr) : list model :=
  trues ← sublists (remove_dups (flat_map bool_consts cs));
  let bv := fun x => bool_decide (x ∈ trues) in
  z ← int_candidates cs;
  q ← real_candidates (Model bv (fun _ => 0) (fun _ => 0%Q)) cs;
  [Model bv (fun _ => z) (fun _ => q)].

Definition search_check (cs : list bexpr) : check_result :=
  match List.find (fun m => holds_all m cs) (candidate_models cs) with
  | Some m => sat m
  | None => unknown
  end.

Definition search_solver : Solver.
Proof.
  refine {| check := search_check |}.
  - intros cs m. unfold search_check.
    destruct (List.find _ _) as [m'|] eqn:Hfind; [|discriminate].
    intros [= <-]. by apply find_some in Hfind as [_ ?].
  - intros cs. unfold search_check. by destruct (List.find _ _).
Defined.

(** ** A sample product line *)

Definition feature (name : string) : element :=
  Element "feature" [("name", name)] [].

Definition sample_model : element :=
  Element "featureModel" []
    [ feature "SecOC_Protection";
      feature "Fresh_Counter";
      feature "Fresh_Timestamp";
      Element "alt" [] [feature "MAC_32"; feature "MAC_64"; feature "MAC_128"];
      Element "alt" [] [feature "AES_128"; feature "AES_256"];
      Element "requires" [("a", "SecOC_Protection"); ("b", "Fresh_Counter")] [];
      Element "requires" [("a", "SecOC_Protection"); ("b", "Key_Store")] [];
      Element "excludes" [("a", "Fresh_Counter"); ("b", "Fresh_Timestamp")] [] ].

Definition sample_bounds : EmpiricalBounds :=
  {| d1_mean_period_ms := 10;
     d1_min_interarrival_ms := 5;
     d1_max_interarrival_ms := 20;
     d2_max_auth_latency_ms := 35 # 10;
     d2_max_jitter_ms := 0;
     d3_max_latency_by_variant := {[ "V3" := 3%Q ]};
     d4_min_replay_interval_ms := 1 |}.

(** The same bounds with the observed maximum of variant V3 tightened to
    1 ms, below the cheapest configuration. *)
Definition tight_bounds : EmpiricalBounds :=
  {| d1_mean_period_ms := 10;
     d1_min_interarrival_ms := 5;
     d1_max_interarrival_ms := 20;
     d2_max_auth_latency_ms := 35 # 10;
     d2_max_jitter_ms := 0;
     d3_max_latency_by_variant := {[ "V3" := 1%Q ]};
     d4_min_replay_interval_ms := 1 |}.

Definition sample_alt : element :=
  Element "alt" [] [feature "MAC_32"; feature "MAC_64"; feature "MAC_128"].

Definition sample_result : gmap string bool :=
  list_to_map
    [("AES_128", true); ("AES_256", false); ("Fresh_Counter", true);
     ("Fresh_Timestamp", false); ("MAC_128", false); ("MAC_32", true);
     ("MAC_64", false); ("SecOC_Protection", true)].

Definition sample_valuation : model :=
  Model (fun x => bool_decide
                    (x ∈ ["SecOC_Protection"; "MAC_32"; "AES_128"; "Fresh_Counter"]))
        (fun _ => 5) (fun _ => (28 # 10)%Q).

Definition sample_assertions : list bexpr :=
  match assertions_with sample_model "V3" sample_bounds
          (empirical_constraints_with 5 3) with
  | Some (_, cs) => cs
  | None => []
  end.

(** ** Constants occurring in a term *)

Fixpoint int_consts (e : bexpr) : list string :=
  match e with
  | BoolVal _ | Bool _ => []
  | Or args => flat_map int_consts args
  | And a b | Implies a b | EqB a b => int_consts a ++ int_consts b
  | Not a => int_consts a
  | EqA x y | Le x y | Ge x y => arith_int_consts x ++ arith_int_consts y
  end
with arith_int_consts (e : aexpr) : list string :=
  match e with
  | IntVal _ | RealVal _ | Real _ => []
  | Int x => [x]
  | If c t e => int_consts c ++ arith_int_consts t ++ arith_int_consts e
  | Add x y => arith_int_consts x ++ arith_int_consts y
  | Sum args => flat_map arith_int_consts args
  end.

Fixpoint real_consts (e : bexpr) : list string :=
  match e with
  | BoolVal _ | Bool _ => []
  | Or args => flat_map real_consts args
  | And a b | Implies a b | EqB a b => real_consts a ++ real_consts b
  | Not a => real_consts a
  | EqA x y | Le x y | Ge x y => arith_real_consts x ++ arith_real_consts y
  end
with arith_real_consts (e : aexpr) : list string :=
  match e with
  | IntVal _ | RealVal _ | Int _ => []
  | Real x => [x]
  | If c t e => real_consts c ++ arith_real_consts t ++ arith_real_consts e
  | Add x y => arith_real_consts x ++ arith_real_consts y
  | Sum args => flat_map arith_real_consts args
  end.

(** A returned mapping read as a valuation of the Boolean constants (a name
    that is no key counts as false), beside given numeric valuations. *)
Definition valuation_of (d : gmap string bool)
    (iv : string -> Z) (rv : string -> Q) : model :=
  Model (fun name => default false (d !! name)) iv rv.

(** Two models that agree on the constants of a term give it the same
    value. *)
Definition agree_on (m m' : model) (bs zs rs : list string) : Prop :=
  (forall x, x ∈ bs -> bool_val m x = bool_val m' x) /\
  (forall x, x ∈ zs -> int_val m x = int_val m' x) /\
  (forall x, x ∈ rs -> real_val m x = real_val m' x).

(** A purely Boolean assertion over the given names. *)
Definition boolean_over (names : gset string) (c : bexpr) : Prop :=
  (forall x, x ∈ bool_consts c -> x ∈ names) /\
  int_consts c = [] /\ real_consts c = [].

(** An assertion of the query: Boolean constants among the names, no
    integer constant but the freshness window, no real constant but the
    latency. *)
Definition scoped (names : gset string) (c : bexpr) : Prop :=
  (forall x, x ∈ bool_consts c -> x ∈ names) /\
  (forall x, x ∈ int_consts c -> x = "freshness_window_ms") /\
  (forall x, x ∈ real_consts c -> x = "latency_ms").


(** ** Further sample documents *)

(** A model in which the preset of V1 meets an excludes edge. *)
Definition conflict_model : element :=
  Element "featureModel" []
    [ feature "CAN"; feature "AES_128";
      Element "excludes" [("a", "CAN"); ("b", "AES_128")] [] ].

(** An alternative group that lists one feature twice. *)
Definition duplicate_alt : element :=
  Element "alt" [] [feature "MAC_32"; feature "MAC_32"; feature "MAC_64"].

Definition duplicate_model : element :=
  Element "featureModel" [] [duplicate_alt].

(** An alternative group with one child. *)
Definition single_alt : element := Element "alt" [] [feature "MAC_64"].

Definition single_model : element :=
  Element "featureModel" [] [single_alt].

(** A model without any of the costed features. *)
Definition bare_model : element :=
  Element "featureModel" [] [feature "SecOC_Protection"].

Definition only_mac_64 : model :=
  Model (fun x => String.eqb x "MAC_64") (fun _ => 0) (fun _ => 0%Q).

(** [sample_valuation] with MAC_128, AES_256 and Fresh_Timestamp switched. *)
Definition other_valuation : model :=
  Model (fun x => bool_decide
                    (x ∈ ["SecOC_Protection"; "MAC_32"; "AES_128"; "Fresh_Counter";
                          "MAC_128"; "AES_256"; "Fresh_Timestamp"]))
        (fun _ => 7) (fun _ => (1 # 3)%Q).

(** [sample_bounds] with other values in the fields the run does not read. *)
Definition noisy_bounds : EmpiricalBounds :=
  {| d1_mean_period_ms := 12;
     d1_min_interarrival_ms := 5;
     d1_max_interarrival_ms := 90;
     d2_max_auth_latency_ms := 35 # 10;
     d2_max_jitter_ms := 4;
     d3_max_latency_by_variant := {[ "V3" := 3%Q ]};
     d4_min_replay_interval_ms := 250 |}.

(** ** The script on floats that may be NaN or infinite *)

Inductive pyfloat : Type :=
| Finite (q : Q)
| Infinity (negative : bool)
| NaN.

(** The exceptions the run can end in. *)
Inductive exn : Type :=
| KeyError
| ValueError
| OverflowError
| Z3Exception.

Module Raw.

Record EmpiricalBounds : Type := {
  d1_mean_period_ms : pyfloat;
  d1_min_interarrival_ms : pyfloat;
  d1_max_interarrival_ms : pyfloat;
  d2_max_auth_latency_ms : pyfloat;
  d2_max_jitter_ms : pyfloat;
  d3_max_latency_by_variant : gmap string pyfloat;
  d4_min_replay_interval_ms : pyfloat
}.

(** [a < b] on floats: false as soon as one side is NaN. *)
Definition float_lt (a b : pyfloat) : bool :=
  match a, b with
  | NaN, _ | _, NaN => false
  | Finite x, Finite y => if Qlt_le_dec x y then true else false
  | Finite _, Infinity negative => negb negative
  | Infinity negative, Finite _ => negative
  | Infinity n1, Infinity n2 => n1 && negb n2
  end.

(** [min(a, b)]: the first argument unless the second is strictly smaller. *)
Definition py_min (a b : pyfloat) : pyfloat := if float_lt b a then b else a.

(** [int(x)]: [ValueError] on NaN, [OverflowError] on an infinity. *)
Definition py_int (x : pyfloat) : exn + Z :=
  match x with
  | Finite q => inr (Z.quot (Qnum q) (Zpos (Qden q)))
  | Infinity _ => inl OverflowError
  | NaN => inl ValueError
  end.

(** The numeral Z3 builds from [str(x)]; ['nan'] and ['inf'] are no
    numerals. *)
Definition to_RealVal (x : pyfloat) : exn + aexpr :=
  match x with
  | Finite q => inr (RealVal q)
  | _ => inl Z3Exception
  end.

Definition build_latency_model (bounds : EmpiricalBounds)
    (feature_vars : gmap string bexpr) : aexpr * list bexpr :=
  (latency_ms, [EqA latency_ms (latency_cost feature_vars)]).

Definition cost_upper_bound (bounds : EmpiricalBounds) (variant_name : string)
  : pyfloat :=
  py_min (d2_max_auth_latency_ms bounds)
         (default (d2_max_auth_latency_ms bounds)
                  (d3_max_latency_by_variant bounds !! variant_name)).

(** The list [empirical_constraints]: its first element is built first. *)
Definition empirical_constraints (bounds : EmpiricalBounds) (variant_name : string)
  : exn + list bexpr :=
  match py_int (d1_min_interarrival_ms bounds) with
  | inl e => inl e
  | inr window_lo =>
      match to_RealVal (cost_upper_bound bounds variant_name) with
      | inl e => inl e
      | inr cost_hi =>
          inr [Ge freshness_window_ms (IntVal window_lo); Le latency_ms cost_hi]
      end
  end.

Definition assertions (bounds : EmpiricalBounds) (root : element)
    (variant_name : string) : exn + (gmap string bexpr * list bexpr) :=
  match compile_feature_model root with
  | None => inl KeyError
  | Some (feature_vars, fm_constraints) =>
      let vsel := load_variant variant_name in
      let '(_, latency_constraints) := build_latency_model bounds feature_vars in
      match empirical_constraints bounds variant_name with
      | inl e => inl e
      | inr empirical =>
          inr (feature_vars,
               fm_constraints ++ req_constraints feature_vars
               ++ variant_constraints feature_vars vsel
               ++ latency_constraints ++ empirical)
      end
  end.

Definition synthesize_variant `{Solver} (bounds : EmpiricalBounds) (root : element)
    (variant_name : string) : exn + option (gmap string bool) :=
  match assertions bounds root variant_name with
  | inl e => inl e
  | inr (feature_vars, cs) =>
      inr (match check cs with
           | sat m => Some (beval m <$> feature_vars)
           | _ => None
           end)
  end.

End Raw.

(** A record of finite floats, as a record of floats. *)
Definition of_finite (bounds : EmpiricalBounds) : Raw.EmpiricalBounds :=
  {| Raw.d1_mean_period_ms := Finite (d1_mean_period_ms bounds);
     Raw.d1_min_interarrival_ms := Finite (d1_min_interarrival_ms bounds);
     Raw.d1_max_interarrival_ms := Finite (d1_max_interarrival_ms bounds);
     Raw.d2_max_auth_latency_ms := Finite (d2_max_auth_latency_ms bounds);
     Raw.d2_max_jitter_ms := Finite (d2_max_jitter_ms bounds);
     Raw.d3_max_latency_by_variant := Finite <$> d3_max_latency_by_variant bounds;
     Raw.d4_min_replay_interval_ms := Finite (d4_min_replay_interval_ms bounds) |}.

(** The finite record that holds what a run reads of a record of floats. *)
Definition finite_view (d1_min cost_hi : Q) : EmpiricalBounds :=
  {| d1_mean_period_ms := 0;
     d1_min_interarrival_ms := d1_min;
     d1_max_interarrival_ms := 0;
     d2_max_auth_latency_ms := cost_hi;
     d2_max_jitter_ms := 0;
     d3_max_latency_by_variant := ∅;
     d4_min_replay_interval_ms := 0 |}.

(** The bounds an empty CAN log gives: no inter-arrival time at all. *)
Definition empty_log_bounds : Raw.EmpiricalBounds :=
  {| Raw.d1_mean_period_ms := NaN;
     Raw.d1_min_interarrival_ms := NaN;
     Raw.d1_max_interarrival_ms := NaN;
     Raw.d2_max_auth_latency_ms := Finite (35 # 10);
     Raw.d2_max_jitter_ms := Finite 0;
     Raw.d3_max_latency_by_variant := {[ "V3" := Finite 3 ]};
     Raw.d4_min_replay_interval_ms := Finite 1 |}.

(** ** A document whose root is itself an alternative group *)

Definition root_alt_model : element :=
  Element "alt" [] [feature "MAC_32"; feature "MAC_64"].

Definition all_true : model :=
  Model (fun _ => true) (fun _ => 0) (fun _ => 0%Q).

(** An alternative group none of whose children is a named feature, beside
    one that has three. *)
Definition empty_alt : element :=
  Element "alt" [] [Element "feature" [] []; Element "note" [("name", "n1")] []].

Definition grouped_model : element :=
  Element "featureModel" [] [sample_alt; empty_alt].

(** * Properties *)

(** ** Documents and feature variables *)

Lemma element_rose_ind (P : element -> Prop) :
  (forall t a k, Forall P k -> P (Element t a k)) -> forall e, P e.
Proof.
  intros HP. fix IH 1. intros [t a k]. apply HP.
  induction k as [|c k IHk]; constructor; [apply IH | apply IHk].
Qed.

Lemma in_descendants_child (a c : element) :
  In c (echildren a) -> In c (descendants a).
Proof.
  destruct a as [t at' k]; simpl. intros Hc.
  apply in_flat_map. exists c. split; [done | by left].
Qed.

Lemma in_descendants_trans (r a c : element) :
  In a (descendants r) -> In c (descendants a) -> In c (descendants r).
Proof.
  induction r as [t at' k IH] using element_rose_ind; simpl.
  intros Ha Hc. apply in_flat_map in Ha as (x & Hx & Hax).
  apply in_flat_map. exists x. split; [done|].
  destruct Hax as [-> | Hax]; [by right|].
  right. rewrite Forall_forall in IH. eapply IH; eauto. by apply list_elem_of_In.
Qed.

Lemma feature_vars_of_lookup (names : gset string) (n : string) :
  feature_vars_of names !! n = if decide (n ∈ names) then Some (Bool n) else None.
Proof.
  unfold feature_vars_of, sorted.
  assert (Hp : merge_sort str_le (elements names) ≡ₚ elements names)
    by apply merge_sort_Permutation.
  set (l := merge_sort str_le (elements names)) in *.
  assert (Hfst : ((fun name => (name, Bool name)) <$> l).*1 = l).
  { rewrite <- list_fmap_compose. apply list_fmap_id. }
  destruct (decide (n ∈ names)) as [Hin | Hout].
  - apply elem_of_list_to_map.
    + rewrite Hfst, Hp. apply NoDup_elements.
    + apply list_elem_of_fmap. exists n. split; [done|].
      rewrite Hp. by apply elem_of_elements.
  - apply not_elem_of_list_to_map. rewrite Hfst, Hp.
    by rewrite elem_of_elements.
Qed.

#[local] Instance str_le_total : Total str_le.
Proof. intros a b. apply String.leb_total. Qed.


Lemma elem_of_feature_names (root : element) (n : string) :
  n ∈ feature_names root <->
  exists e, In e (descendants root) /\ get e "name" = Some n.
Proof.
  unfold feature_names, xpath_named.
  rewrite elem_of_list_to_set, list_elem_of_omap. split.
  - intros (e & He & Hn). exists e. split; [|done].
    apply list_elem_of_In, filter_In in He. tauto.
  - intros (e & He & Hn). exists e. split; [|done].
    apply list_elem_of_In, filter_In. split; [done|].
    unfold has_attr. by rewrite Hn.
Qed.

Lemma mapM_total {A B} (f : A -> option B) (g : A -> B) (l : list A) :
  (forall x, In x l -> f x = Some (g x)) -> mapM f l = Some (g <$> l).
Proof.
  induction l as [|x l IH]; intros Hf; [done|].
  simpl. rewrite (Hf x) by by left. simpl.
  rewrite IH by (intros; apply Hf; by right). done.
Qed.

Lemma feature_child_named (alt c : element) :
  In c (xpath_feature_children alt) ->
  In c (echildren alt) /\ exists n, get c "name" = Some n.
Proof.
  unfold xpath_feature_children. rewrite filter_In, andb_true_iff.
  intros (Hc & _ & Hn). split; [done|].
  unfold has_attr in Hn. destruct (get c "name") as [n|]; [by exists n | done].
Qed.

Lemma named_nodes_resolve (root : element) (l : list element) :
  (forall c, In c l -> In c (descendants root) /\ exists n, get c "name" = Some n) ->
  mapM (fun c => getitem (feature_vars_of (feature_names root)) (get c "name")) l
  = Some (Bool <$> omap (fun c => get c "name") l).
Proof.
  induction l as [|c l IH]; intros Hl; [done|].
  destruct (Hl c) as (Hc & n & Hn); [by left|].
  simpl. rewrite Hn. simpl.
  rewrite feature_vars_of_lookup, decide_True
    by (apply elem_of_feature_names; eauto).
  simpl. rewrite IH by (intros; apply Hl; by right). done.
Qed.

Lemma alt_children_resolve (root alt : element) :
  In alt (descendants root) ->
  mapM (fun c => getitem (feature_vars_of (feature_names root)) (get c "name"))
       (xpath_feature_children alt)
  = Some (Bool <$> alt_child_names alt).
Proof.
  intros Halt. apply named_nodes_resolve. intros c Hc.
  apply feature_child_named in Hc as [Hc Hn]. split; [|done].
  eapply in_descendants_trans; [done|]. by apply in_descendants_child.
Qed.

Lemma alt_constraints_eq (root alt : element) :
  In alt (descendants root) ->
  alt_constraints (feature_vars_of (feature_names root)) alt
  = Some (alt_block (Bool <$> alt_child_names alt)).
Proof.
  intros Halt. unfold alt_constraints.
  by rewrite (alt_children_resolve root alt Halt).
Qed.

Lemma in_xpath_desc (t : string) (root e : element) :
  In e (xpath_desc t root) <-> In e (descendants root) /\ etag e = t.
Proof. unfold xpath_desc. by rewrite filter_In, String.eqb_eq. Qed.

Lemma compile_feature_model_eq (root : element) :
  compile_feature_model root
  = Some (feature_vars_of (feature_names root), fm_constraints_of root).
Proof.
  unfold compile_feature_model, fm_constraints_of.
  erewrite mapM_total; [done|].
  intros alt Halt. apply alt_constraints_eq. by apply in_xpath_desc in Halt as [? _].
Qed.

Lemma assertions_with_eq (root : element) (v : string) (bounds : EmpiricalBounds)
    (empirical : list bexpr) :
  assertions_with root v bounds empirical
  = let fv := feature_vars_of (feature_names root) in
    Some (fv, fm_constraints_of root ++ req_constraints fv
              ++ variant_constraints fv (load_variant v)
              ++ [EqA latency_ms (latency_cost fv)] ++ empirical).
Proof. unfold assertions_with. by rewrite compile_feature_model_eq. Qed.

(** ** Semantics of the emitted assertions *)

Lemma holds_all_elem (m : model) (cs : list bexpr) (c : bexpr) :
  holds_all m cs = true -> c ∈ cs -> beval m c = true.
Proof.
  unfold holds_all. rewrite forallb_forall. intros H Hc.
  by apply H, list_elem_of_In.
Qed.

Lemma holds_all_app (m : model) (cs1 cs2 : list bexpr) :
  holds_all m (cs1 ++ cs2) = true <->
  holds_all m cs1 = true /\ holds_all m cs2 = true.
Proof. unfold holds_all. by rewrite forallb_app, andb_true_iff. Qed.

(** The sum of the indicators counts the arguments that hold. *)
Lemma aeval_sum_indicators (m : model) (cs : list bexpr) :
  (aeval m (Sum (indicator <$> cs))
   == inject_Z (Z.of_nat (length (List.filter (beval m) cs))))%Q.
Proof.
  induction cs as [|c cs IH]; [done|].
  change (aeval m (Sum (indicator <$> c :: cs)))
    with (Qplus (aeval m (indicator c)) (aeval m (Sum (indicator <$> cs)))).
  rewrite IH. simpl. destruct (beval m c); simpl.
  - rewrite Nat2Z.inj_succ, <- Z.add_1_l, inject_Z_plus. reflexivity.
  - apply Qplus_0_l.
Qed.

Lemma filter_singleton_names (m : model) (ns : list string) :
  length (List.filter (beval m) (Bool <$> ns)) = 1%nat ->
  exists c, c ∈ ns /\ bool_val m c = true /\
    forall c', c' ∈ ns -> bool_val m c' = true -> c' = c.
Proof.
  intros Hlen.
  destruct (List.filter (beval m) (Bool <$> ns)) as [|e [|? ?]] eqn:Hf;
    try discriminate.
  assert (He : In e (List.filter (beval m) (Bool <$> ns))) by (rewrite Hf; by left).
  apply filter_In in He as [He Hv].
  apply list_elem_of_In, list_elem_of_fmap in He as (c & -> & Hc).
  exists c. split_and!; [done..|].
  intros c' Hc' Hv'.
  assert (H' : In (Bool c') (List.filter (beval m) (Bool <$> ns))).
  { apply filter_In. split; [|done].
    apply list_elem_of_In, list_elem_of_fmap. eauto. }
  rewrite Hf in H'. destruct H' as [H'|[]]. congruence.
Qed.

Lemma exactly_one_of_sum (m : model) (ns : list string) :
  beval m (EqA (Sum (indicator <$> (Bool <$> ns))) (IntVal 1)) = true ->
  exists c, c ∈ ns /\ bool_val m c = true /\
    forall c', c' ∈ ns -> bool_val m c' = true -> c' = c.
Proof.
  intros H. apply filter_singleton_names.
  change (Qeq_bool (aeval m (Sum (indicator <$> (Bool <$> ns)))) (inject_Z 1) = true) in H.
  apply Qeq_bool_iff in H. rewrite aeval_sum_indicators in H.
  unfold Qeq in H. simpl in H. lia.
Qed.

Lemma alt_block_in_fm (root alt : element) (c : bexpr) :
  In alt (xpath_desc "alt" root) ->
  c ∈ alt_block (Bool <$> alt_child_names alt) ->
  c ∈ fm_constraints_of root.
Proof.
  intros Halt Hc. unfold fm_constraints_of.
  apply elem_of_app. left. apply list_elem_of_In, in_concat.
  eexists. split; [|apply list_elem_of_In, Hc].
  apply list_elem_of_In, list_elem_of_fmap.
  exists alt. split; [done | by apply list_elem_of_In].
Qed.

Lemma alt_child_names_nil (alt : element) :
  alt_child_names alt = [] <-> xpath_feature_children alt = [].
Proof.
  unfold alt_child_names. split; [|by intros ->].
  destruct (xpath_feature_children alt) as [|c l] eqn:E; [done|].
  destruct (feature_child_named alt c) as (_ & n & Hn); [rewrite E; by left|].
  simpl. by rewrite Hn.
Qed.

(** C1, as amended: for an [alt] element below the root (one that
    [root.xpath(".//alt")] selects) with a non-empty list of named [feature]
    children C, the compiler emits [Or C] and [Sum (indicators of C) == 1],
    and every model of the compiled assertions makes exactly one member of
    the group true; such an element without those children emits nothing. *)
Theorem alt_group_exactly_one (root alt : element) :
  In alt (xpath_desc "alt" root) ->
  exists feature_vars fm_constraints,
    compile_feature_model root = Some (feature_vars, fm_constraints) /\
    (xpath_feature_children alt = [] -> alt_constraints feature_vars alt = Some []) /\
    (xpath_feature_children alt <> [] ->
     let C := Bool <$> alt_child_names alt in
     alt_constraints feature_vars alt
       = Some [Or C; EqA (Sum (indicator <$> C)) (IntVal 1)] /\
     Or C ∈ fm_constraints /\
     EqA (Sum (indicator <$> C)) (IntVal 1) ∈ fm_constraints /\
     forall m, holds_all m fm_constraints = true ->
       exists c, c ∈ alt_child_names alt /\ bool_val m c = true /\
         forall c', c' ∈ alt_child_names alt -> bool_val m c' = true -> c' = c).
Proof.
  intros Halt. eexists _, _. split; [apply compile_feature_model_eq|].
  assert (Hd : In alt (descendants root)) by (by apply in_xpath_desc in Halt as [? _]).
  rewrite (alt_constraints_eq root alt Hd).
  split.
  - intros Hnil. apply alt_child_names_nil in Hnil. by rewrite Hnil.
  - intros Hne. rewrite <- alt_child_names_nil in Hne.
    destruct (alt_child_names alt) as [|n ns] eqn:E; [done|].
    rewrite <- E in *. simpl.
    assert (Hblock : alt_block (Bool <$> alt_child_names alt)
              = [Or (Bool <$> alt_child_names alt);
                 EqA (Sum (indicator <$> (Bool <$> alt_child_names alt))) (IntVal 1)])
      by (by rewrite E).
    split; [by rewrite Hblock|].
    assert (H1 : Or (Bool <$> alt_child_names alt) ∈ fm_constraints_of root).
    { apply (alt_block_in_fm root alt); [done|]. rewrite Hblock. constructor. }
    assert (H2 : EqA (Sum (indicator <$> (Bool <$> alt_child_names alt))) (IntVal 1)
                   ∈ fm_constraints_of root).
    { apply (alt_block_in_fm root alt); [done|]. rewrite Hblock. do 2 constructor. }
    split_and!; [done..|].
    intros m Hm. apply exactly_one_of_sum. by eapply holds_all_elem.
Qed.

(** ** The assertions of a synthesis request *)

Lemma assertions_eq (bounds : EmpiricalBounds) (root : element) (v : string) :
  assertions bounds root v
  = let fv := feature_vars_of (feature_names root) in
    Some (fv, fm_constraints_of root ++ req_constraints fv
              ++ variant_constraints fv (load_variant v)
              ++ [EqA latency_ms (latency_cost fv)]
              ++ empirical_constraints bounds v).
Proof. unfold assertions. by rewrite assertions_with_eq. Qed.

Section synthesis.
Context `{!Solver}.

(** A returned mapping is read off a model of the assertions. *)
Lemma synthesize_variant_sat bounds root v d :
  synthesize_variant bounds root v = Some (Some d) ->
  exists feature_vars cs m,
    assertions bounds root v = Some (feature_vars, cs) /\
    check cs = sat m /\ holds_all m cs = true /\
    d = beval m <$> feature_vars.
Proof.
  unfold synthesize_variant.
  destruct (assertions bounds root v) as [[fv cs]|]; [|discriminate].
  destruct (check cs) as [m| |] eqn:Hc; try discriminate.
  intros [= <-]. exists fv, cs, m. split_and!; try done.
  by apply check_sat_sound.
Qed.

Lemma synthesize_variant_total bounds root v :
  is_Some (synthesize_variant bounds root v).
Proof. unfold synthesize_variant. rewrite assertions_eq. simpl. eauto. Qed.

(** The returned mapping gives each declared feature the value of its
    Boolean constant, and has no other key. *)
Lemma result_lookup (m : model) (names : gset string) (k : string) :
  (beval m <$> feature_vars_of names) !! k
  = if decide (k ∈ names) then Some (bool_val m k) else None.
Proof. rewrite lookup_fmap, feature_vars_of_lookup. by case_decide. Qed.

Lemma dom_feature_vars_of (names : gset string) :
  dom (feature_vars_of names) = names.
Proof.
  apply set_eq. intros k. rewrite elem_of_dom, feature_vars_of_lookup.
  case_decide; [by split; eauto|].
  split; [by intros ?%is_Some_None | done].
Qed.

(** What a successful run gives: the model is a model of each group of
    assertions. *)
Lemma synthesize_variant_model bounds root v d :
  synthesize_variant bounds root v = Some (Some d) ->
  let fv := feature_vars_of (feature_names root) in
  exists cs m,
    assertions bounds root v = Some (fv, cs) /\ check cs = sat m /\
    d = beval m <$> fv /\
    holds_all m (fm_constraints_of root) = true /\
    holds_all m (req_constraints fv) = true /\
    holds_all m (variant_constraints fv (load_variant v)) = true /\
    holds_all m [EqA latency_ms (latency_cost fv)] = true /\
    holds_all m (empirical_constraints bounds v) = true.
Proof.
  intros Hs. apply synthesize_variant_sat in Hs as (fv & cs & m & Ha & Hc & Hm & ->).
  pose proof Ha as Ha'. rewrite assertions_eq in Ha'. cbv zeta in Ha'.
  injection Ha' as <- <-.
  change (EqA latency_ms (latency_cost (feature_vars_of (feature_names root)))
          :: empirical_constraints bounds v)
    with ([EqA latency_ms (latency_cost (feature_vars_of (feature_names root)))]
          ++ empirical_constraints bounds v) in Hm.
  rewrite !holds_all_app in Hm. destruct Hm as (? & ? & ? & ? & ?).
  eexists _, m. split_and!; try done.
Qed.

End synthesis.

(** ** Arithmetic of the bounds *)

Lemma py_min_Qmin (a b : Q) : (py_min a b == Qmin a b)%Q.
Proof.
  unfold py_min. destruct (Qlt_le_dec b a) as [Hlt | Hle].
  - symmetry. apply Q.min_r. by apply Qlt_le_weak.
  - symmetry. by apply Q.min_l.
Qed.

(** Truncation toward zero is never below the floor, and is the floor on
    non-negative values. *)
Lemma Qfloor_le_py_int (x : Q) : Qfloor x <= py_int x.
Proof.
  destruct x as [n d]. unfold py_int, Qfloor. simpl.
  pose proof (Z.div_mod n (Zpos d) ltac:(lia)) as Hdiv.
  pose proof (Z.mod_pos_bound n (Zpos d) ltac:(lia)) as Hmod.
  pose proof (Z.quot_rem' n (Zpos d)) as Hquot.
  pose proof (Z.rem_bound_abs n (Zpos d) ltac:(lia)) as Hrem.
  nia.
Qed.

Lemma py_int_nonneg (x : Q) : (0 <= x)%Q -> py_int x = Qfloor x.
Proof.
  destruct x as [n d]. unfold py_int, Qfloor, Qle. simpl. intros Hn.
  apply Z.quot_div_nonneg; lia.
Qed.

Example py_int_truncates : py_int (-1 # 2) = 0 /\ Qfloor (-1 # 2) = -1.
Proof. by split. Qed.

Lemma py_int_Z (x : Q) (z : Z) : (x == inject_Z z)%Q -> py_int x = z.
Proof.
  destruct x as [n d]. unfold py_int, Qeq. simpl. intros Hn.
  replace n with (z * Zpos d) by lia. apply Z.quot_mul. lia.
Qed.

(** The cost expression lies between the cheapest and the dearest choice. *)
Lemma latency_cost_range (feature_vars : gmap string bexpr) (m : model) :
  (28 # 10 <= aeval m (latency_cost feature_vars) <= 59 # 10)%Q.
Proof.
  unfold latency_cost. cbn [aeval].
  destruct (beval m (dict_get feature_vars "MAC_32" (BoolVal false)));
  destruct (beval m (dict_get feature_vars "MAC_64" (BoolVal false)));
  destruct (beval m (dict_get feature_vars "AES_128" (BoolVal false)));
  destruct (beval m (dict_get feature_vars "Fresh_Counter" (BoolVal false)));
  split; by vm_compute.
Qed.

(** ** Properties of a synthesis run *)

Lemma preset_constraint_emitted (names : gset string)
    (vsel : list (string * bool)) (name : string) (value : bool) :
  (name, value) ∈ vsel -> name ∈ names ->
  EqB (Bool name) (BoolVal value) ∈ variant_constraints (feature_vars_of names) vsel.
Proof.
  intros Hin Hdecl. unfold variant_constraints.
  apply list_elem_of_In, in_flat_map. exists (name, value).
  split; [by apply list_elem_of_In|].
  rewrite feature_vars_of_lookup, decide_True by done. by left.
Qed.

Section runs.
Context `{!Solver}.

(** C2: when [SecOC_Protection] is declared in the feature model, every
    mapping returned by [synthesize_variant] maps it to true, whatever the
    variant identifier and its preset. *)
Theorem secoc_forced_true bounds root variant_name d :
  "SecOC_Protection" ∈ feature_names root ->
  synthesize_variant bounds root variant_name = Some (Some d) ->
  d !! "SecOC_Protection" = Some true.
Proof.
  intros Hdecl Hs.
  apply synthesize_variant_model in Hs as (cs & m & _ & _ & -> & _ & Hreq & _).
  rewrite result_lookup, decide_True by done. f_equal.
  unfold req_constraints in Hreq.
  rewrite feature_vars_of_lookup, decide_True in Hreq by done.
  simpl in Hreq. by rewrite andb_true_r in Hreq.
Qed.

(** C3: the model behind a returned mapping keeps [latency_ms] at or below
    the minimum of the global maximum observed latency and the variant's own
    maximum when the per-variant map has one, the global maximum otherwise. *)
Theorem latency_within_observed_max bounds root variant_name d :
  synthesize_variant bounds root variant_name = Some (Some d) ->
  exists feature_vars cs m,
    assertions bounds root variant_name = Some (feature_vars, cs) /\
    check cs = sat m /\ d = beval m <$> feature_vars /\
    (real_val m "latency_ms"
     <= Qmin (d2_max_auth_latency_ms bounds)
             (match d3_max_latency_by_variant bounds !! variant_name with
              | Some l => l
              | None => d2_max_auth_latency_ms bounds
              end))%Q.
Proof.
  intros Hs.
  apply synthesize_variant_model in Hs as (cs & m & Ha & Hc & -> & _ & _ & _ & _ & He).
  eexists _, cs, m. split_and!; [done..|].
  unfold empirical_constraints, empirical_constraints_with in He. simpl in He.
  apply andb_true_iff in He as [_ He]. rewrite andb_true_r in He.
  apply Qle_bool_iff in He. eapply Qle_trans; [exact He|].
  unfold cost_upper_bound. simpl. rewrite py_min_Qmin. unfold default.
  destruct (d3_max_latency_by_variant bounds !! variant_name); apply Qle_refl.
Qed.

(** C4: a returned mapping agrees with the preset of the requested variant
    on every declared feature the preset fixes. *)
Theorem preset_respected bounds root variant_name d name value :
  (name, value) ∈ load_variant variant_name ->
  name ∈ feature_names root ->
  synthesize_variant bounds root variant_name = Some (Some d) ->
  d !! name = Some value.
Proof.
  intros Hin Hdecl Hs.
  apply synthesize_variant_model in Hs as (cs & m & _ & _ & -> & _ & _ & Hv & _).
  rewrite result_lookup, decide_True by done. f_equal.
  pose proof (preset_constraint_emitted _ _ _ _ Hin Hdecl) as Hc.
  apply (holds_all_elem m _ _ Hv) in Hc. simpl in Hc.
  by apply Bool.eqb_prop in Hc.
Qed.

(** C5: the assertions bound [freshness_window_ms] from below by the
    integer part of the minimum inter-arrival time, so its value in the
    model behind a returned mapping is at least the floor of that minimum,
    and at least 5 when the minimum is 5. *)
Theorem freshness_window_lower_bound bounds root variant_name d :
  synthesize_variant bounds root variant_name = Some (Some d) ->
  exists feature_vars cs m,
    assertions bounds root variant_name = Some (feature_vars, cs) /\
    check cs = sat m /\ d = beval m <$> feature_vars /\
    Ge freshness_window_ms (IntVal (py_int (d1_min_interarrival_ms bounds))) ∈ cs /\
    Qfloor (d1_min_interarrival_ms bounds) <= int_val m "freshness_window_ms" /\
    ((d1_min_interarrival_ms bounds == 5)%Q ->
     5 <= int_val m "freshness_window_ms").
Proof.
  intros Hs.
  apply synthesize_variant_model in Hs as (cs & m & Ha & Hc & -> & _ & _ & _ & _ & He).
  eexists _, cs, m. split_and!; [done..| | |].
  - rewrite assertions_eq in Ha. cbv zeta in Ha. injection Ha as <-.
    rewrite !elem_of_app. do 4 right. constructor.
  - unfold empirical_constraints, empirical_constraints_with in He. simpl in He.
    apply andb_true_iff in He as [He _]. apply Qle_bool_iff in He.
    rewrite <- Zle_Qle in He.
    pose proof (Qfloor_le_py_int (d1_min_interarrival_ms bounds)). lia.
  - intros H5.
    unfold empirical_constraints, empirical_constraints_with in He. simpl in He.
    apply andb_true_iff in He as [He _]. apply Qle_bool_iff in He.
    rewrite <- Zle_Qle in He.
    by rewrite (py_int_Z _ 5 H5) in He.
Qed.

(** C8: a variant identifier outside the catalogue has the empty preset,
    contributes no preset equality, and the run is decided by the
    structural, policy, cost-definition and empirical assertions alone. *)
Theorem unknown_variant_no_preset bounds root variant_name :
  variant_name <> "V1" -> variant_name <> "V2" -> variant_name <> "V3" ->
  load_variant variant_name = [] /\
  (forall feature_vars,
     variant_constraints feature_vars (load_variant variant_name) = []) /\
  exists feature_vars fm_constraints,
    compile_feature_model root = Some (feature_vars, fm_constraints) /\
    let cs := fm_constraints ++ req_constraints feature_vars
              ++ snd (build_latency_model bounds feature_vars)
              ++ empirical_constraints bounds variant_name in
    assertions bounds root variant_name = Some (feature_vars, cs) /\
    synthesize_variant bounds root variant_name
    = Some (match check cs with
            | sat m => Some (beval m <$> feature_vars)
            | _ => None
            end).
Proof.
  intros H1 H2 H3.
  assert (Hl : load_variant variant_name = []).
  { unfold load_variant.
    by rewrite !(proj2 (String.eqb_neq _ _)) by done. }
  split; [done|]. split; [intros fv; by rewrite Hl|].
  eexists _, _. split; [apply compile_feature_model_eq|].
  cbv zeta. unfold synthesize_variant. rewrite assertions_eq. cbv zeta.
  rewrite Hl. simpl. done.
Qed.

(** C9: the keys of a returned mapping are exactly the declared feature
    names, each mapped to the value of its Boolean constant in the solver's
    model; the integer and real constants of the query are no part of it. *)
Theorem result_keys_are_features bounds root variant_name d :
  synthesize_variant bounds root variant_name = Some (Some d) ->
  dom d = feature_names root /\
  exists feature_vars cs m,
    assertions bounds root variant_name = Some (feature_vars, cs) /\
    check cs = sat m /\
    (forall k, d !! k = if decide (k ∈ feature_names root)
                        then Some (bool_val m k) else None) /\
    (forall m', bool_val m' = bool_val m -> beval m' <$> feature_vars = d).
Proof.
  intros Hs.
  apply synthesize_variant_model in Hs as (cs & m & Ha & Hc & -> & _).
  split; [by rewrite dom_fmap_L, dom_feature_vars_of|].
  eexists _, cs, m. split_and!; [done..| |].
  - intros k. apply result_lookup.
  - intros m' Hm'. apply map_eq. intros k. rewrite !result_lookup.
    by rewrite Hm'.
Qed.

(** C10: the cost expression takes a value in [2.8, 5.9] under every
    model; a run whose cost bound is below 2.8 returns the infeasible
    signal; a bound of at least 5.9 excludes no model of the other
    assertions. *)
Theorem latency_cost_bounds :
  (forall feature_vars m,
     (28 # 10 <= aeval m (latency_cost feature_vars) <= 59 # 10)%Q) /\
  (forall bounds root variant_name,
     (cost_upper_bound bounds variant_name < 28 # 10)%Q ->
     synthesize_variant bounds root variant_name = Some None) /\
  (forall bounds root variant_name window_lo cost_hi feature_vars cs cs' m,
     (59 # 10 <= cost_hi)%Q ->
     assertions_with root variant_name bounds
       [Ge freshness_window_ms (IntVal window_lo)] = Some (feature_vars, cs) ->
     assertions_with root variant_name bounds
       (empirical_constraints_with window_lo cost_hi) = Some (feature_vars, cs') ->
     holds_all m cs = true -> holds_all m cs' = true).
Proof.
  split_and!.
  - apply latency_cost_range.
  - intros bounds root v Hlow.
    destruct (synthesize_variant_total bounds root v) as [[d|] Hs]; [|done].
    exfalso.
    apply synthesize_variant_model in Hs as (cs & m & _ & _ & _ & _ & _ & _ & Hl & He).
    unfold empirical_constraints, empirical_constraints_with in He.
    simpl in He, Hl.
    apply andb_true_iff in He as [_ He]. rewrite andb_true_r in He, Hl.
    apply Qle_bool_iff in He. apply Qeq_bool_iff in Hl.
    rewrite Hl in He.
    destruct (latency_cost_range (feature_vars_of (feature_names root)) m) as [Hmin _].
    apply (Qlt_irrefl (28 # 10)).
    eapply Qle_lt_trans; [exact Hmin|]. eapply Qle_lt_trans; [exact He | exact Hlow].
  - intros bounds root v lo hi fv cs cs' m Hhi Ha Ha' Hm.
    rewrite assertions_with_eq in Ha, Ha'. cbv zeta in Ha, Ha'.
    injection Ha as <- <-. injection Ha' as <-.
    set (fv := feature_vars_of (feature_names root)) in *.
    rewrite !holds_all_app in Hm. destruct Hm as (Hfm & Hreq & Hv & Hrest).
    rewrite !holds_all_app. split_and!; [done..|].
    simpl in Hrest |- *.
    apply andb_true_iff in Hrest as [Hl Hrest]. rewrite andb_true_r in Hrest.
    rewrite Hl, Hrest. simpl.
    rewrite andb_true_r. apply Qle_bool_iff. apply Qeq_bool_iff in Hl.
    rewrite Hl. destruct (latency_cost_range fv m) as [_ Hmax].
    eapply Qle_trans; [exact Hmax | exact Hhi].
Qed.

End runs.

(** ** Relaxing the cost bound, and the requires edges *)

(** C6: with the feature model, the preset and the cost definition fixed, a
    model of the assertions under the cost bound [B] is a model of them
    under any larger bound [B'], so satisfiability is kept. *)
Theorem cost_bound_relaxation root variant_name bounds window_lo
    (B B' : Q) feature_vars cs :
  (B < B')%Q ->
  assertions_with root variant_name bounds
    (empirical_constraints_with window_lo B) = Some (feature_vars, cs) ->
  satisfiable cs ->
  exists cs',
    assertions_with root variant_name bounds
      (empirical_constraints_with window_lo B') = Some (feature_vars, cs') /\
    (forall m, holds_all m cs = true -> holds_all m cs' = true) /\
    satisfiable cs'.
Proof.
  intros Hlt Ha Hsat.
  rewrite assertions_with_eq in Ha. cbv zeta in Ha. injection Ha as <- <-.
  eexists. split; [by rewrite assertions_with_eq|].
  assert (Hmono : forall m,
    holds_all m (fm_constraints_of root
       ++ req_constraints (feature_vars_of (feature_names root))
       ++ variant_constraints (feature_vars_of (feature_names root))
            (load_variant variant_name)
       ++ [EqA latency_ms (latency_cost (feature_vars_of (feature_names root)))]
       ++ empirical_constraints_with window_lo B) = true ->
    holds_all m (fm_constraints_of root
       ++ req_constraints (feature_vars_of (feature_names root))
       ++ variant_constraints (feature_vars_of (feature_names root))
            (load_variant variant_name)
       ++ [EqA latency_ms (latency_cost (feature_vars_of (feature_names root)))]
       ++ empirical_constraints_with window_lo B') = true).
  { intros m. rewrite !holds_all_app.
    intros (Hfm & Hreq & Hv & Hl & He). split_and!; [done..|].
    unfold empirical_constraints_with in *. simpl in He |- *.
    apply andb_true_iff in He as [Hw Hb]. rewrite Hw. simpl.
    rewrite andb_true_r in Hb |- *.
    apply Qle_bool_iff in Hb. apply Qle_bool_iff.
    eapply Qle_trans; [exact Hb | by apply Qlt_le_weak]. }
  split; [exact Hmono|].
  destruct Hsat as [m Hm]. exists m. by apply Hmono.
Qed.

Lemma requires_in_fm (root req : element) (c : bexpr) :
  In req (xpath_desc "requires" root) ->
  c ∈ requires_constraints (feature_vars_of (feature_names root)) req ->
  c ∈ fm_constraints_of root.
Proof.
  intros Hreq Hc. unfold fm_constraints_of.
  apply elem_of_app. right. apply elem_of_app. left.
  apply list_elem_of_In, in_flat_map. exists req.
  split; [done | by apply list_elem_of_In].
Qed.


(** ** The sample product line, run with the executable solver *)

Lemma sample_run :
  @synthesize_variant search_solver sample_bounds sample_model "V3"
  = Some (Some sample_result).
Proof.
  exact (eq_refl (Some (Some sample_result))
         <: @synthesize_variant search_solver sample_bounds sample_model "V3"
            = Some (Some sample_result)).
Qed.

Lemma sample_run_unknown_variant :
  @synthesize_variant search_solver sample_bounds sample_model "V99"
  = Some (Some sample_result).
Proof.
  exact (eq_refl (Some (Some sample_result))
         <: @synthesize_variant search_solver sample_bounds sample_model "V99"
            = Some (Some sample_result)).
Qed.

Lemma sample_run_infeasible :
  @synthesize_variant search_solver tight_bounds sample_model "V3" = Some None.
Proof. vm_compute. reflexivity. Qed.

Lemma sample_declares (name : string) :
  In (feature name) (echildren sample_model) -> name ∈ feature_names sample_model.
Proof.
  intros Hin. apply elem_of_feature_names. exists (feature name).
  split; [by apply in_descendants_child | reflexivity].
Qed.

Lemma alt_group_exactly_one_witness :
  (exists feature_vars fm_constraints,
     compile_feature_model grouped_model = Some (feature_vars, fm_constraints) /\
     let C := Bool <$> ["MAC_32"; "MAC_64"; "MAC_128"] in
     alt_constraints feature_vars sample_alt
       = Some [Or C; EqA (Sum (indicator <$> C)) (IntVal 1)] /\
     Or C ∈ fm_constraints /\
     EqA (Sum (indicator <$> C)) (IntVal 1) ∈ fm_constraints /\
     forall m, holds_all m fm_constraints = true ->
       exists c, c ∈ ["MAC_32"; "MAC_64"; "MAC_128"] /\ bool_val m c = true /\
         forall c', c' ∈ ["MAC_32"; "MAC_64"; "MAC_128"] ->
                    bool_val m c' = true -> c' = c) /\
  (exists feature_vars fm_constraints,
     compile_feature_model grouped_model = Some (feature_vars, fm_constraints) /\
     alt_constraints feature_vars empty_alt = Some []).
Proof.
  split.
  - destruct (alt_group_exactly_one grouped_model sample_alt)
      as (fv & fm & Hc & _ & Hne); [simpl; tauto|].
    exists fv, fm. split; [exact Hc|]. apply Hne. discriminate.
  - destruct (alt_group_exactly_one grouped_model empty_alt)
      as (fv & fm & Hc & Hnil & _); [simpl; tauto|].
    exists fv, fm. split; [exact Hc|]. apply Hnil. reflexivity.
Defined.

(** C1, as stated, fails on a document whose root is itself an alternative
    group: [".//alt"] does not select the root, no assertion is emitted for
    its two named children, and the model that makes both true satisfies the
    compiled assertions. *)
Lemma alt_group_at_root_unconstrained :
  etag root_alt_model = "alt" /\
  alt_child_names root_alt_model = ["MAC_32"; "MAC_64"] /\
  xpath_desc "alt" root_alt_model = [] /\
  exists feature_vars,
    compile_feature_model root_alt_model = Some (feature_vars, []) /\
    feature_vars !! "MAC_32" = Some (Bool "MAC_32") /\
    feature_vars !! "MAC_64" = Some (Bool "MAC_64") /\
    holds_all all_true [] = true /\
    ~ (exists c, c ∈ alt_child_names root_alt_model /\ bool_val all_true c = true /\
         forall c', c' ∈ alt_child_names root_alt_model ->
                    bool_val all_true c' = true -> c' = c).
Proof.
  split_and!; [reflexivity..|].
  exists (feature_vars_of (feature_names root_alt_model)).
  split; [rewrite compile_feature_model_eq; reflexivity|].
  split_and!.
  - rewrite feature_vars_of_lookup. apply decide_True.
    apply elem_of_feature_names. exists (feature "MAC_32").
    split; [simpl; tauto | reflexivity].
  - rewrite feature_vars_of_lookup. apply decide_True.
    apply elem_of_feature_names. exists (feature "MAC_64").
    split; [simpl; tauto | reflexivity].
  - reflexivity.
  - intros (c & Hc & _ & Huniq).
    assert (H1 : "MAC_32" = c) by (apply Huniq; [do 1 constructor | reflexivity]).
    assert (H2 : "MAC_64" = c) by (apply Huniq; [do 2 constructor | reflexivity]).
    congruence.
Qed.

Lemma secoc_forced_true_witness :
  sample_result !! "SecOC_Protection" = Some true.
Proof.
  apply (@secoc_forced_true search_solver sample_bounds sample_model "V3").
  - apply sample_declares. simpl. tauto.
  - exact sample_run.
Defined.

Lemma latency_within_observed_max_witness :
  exists feature_vars cs m,
    @assertions sample_bounds sample_model "V3" = Some (feature_vars, cs) /\
    @check search_solver cs = sat m /\ sample_result = beval m <$> feature_vars /\
    (real_val m "latency_ms"
     <= Qmin (d2_max_auth_latency_ms sample_bounds)
             (match d3_max_latency_by_variant sample_bounds !! "V3" with
              | Some l => l
              | None => d2_max_auth_latency_ms sample_bounds
              end))%Q.
Proof.
  apply (@latency_within_observed_max search_solver sample_bounds sample_model "V3").
  exact sample_run.
Defined.

Lemma preset_respected_witness :
  sample_result !! "SecOC_Protection" = Some true.
Proof.
  apply (@preset_respected search_solver sample_bounds sample_model "V3").
  - simpl. constructor.
  - apply sample_declares. simpl. tauto.
  - exact sample_run.
Defined.

Lemma freshness_window_lower_bound_witness :
  exists feature_vars cs m,
    @assertions sample_bounds sample_model "V3" = Some (feature_vars, cs) /\
    @check search_solver cs = sat m /\ sample_result = beval m <$> feature_vars /\
    Ge freshness_window_ms
       (IntVal (py_int (d1_min_interarrival_ms sample_bounds))) ∈ cs /\
    Qfloor (d1_min_interarrival_ms sample_bounds) <= int_val m "freshness_window_ms" /\
    ((d1_min_interarrival_ms sample_bounds == 5)%Q ->
     5 <= int_val m "freshness_window_ms").
Proof.
  apply (@freshness_window_lower_bound search_solver sample_bounds sample_model "V3").
  exact sample_run.
Defined.

Lemma sample_assertions_eq :
  assertions_with sample_model "V3" sample_bounds (empirical_constraints_with 5 3)
  = Some (feature_vars_of (feature_names sample_model), sample_assertions).
Proof. unfold sample_assertions. by rewrite assertions_with_eq. Qed.

Lemma sample_assertions_hold : holds_all sample_valuation sample_assertions = true.
Proof.
  exact (eq_refl true <: holds_all sample_valuation sample_assertions = true).
Qed.

Lemma cost_bound_relaxation_witness :
  exists cs',
    assertions_with sample_model "V3" sample_bounds
      (empirical_constraints_with 5 (35 # 10))
    = Some (feature_vars_of (feature_names sample_model), cs') /\
    (forall m, holds_all m sample_assertions = true -> holds_all m cs' = true) /\
    satisfiable cs'.
Proof.
  apply (cost_bound_relaxation sample_model "V3" sample_bounds 5 3 (35 # 10)).
  - reflexivity.
  - exact sample_assertions_eq.
  - exists sample_valuation. exact sample_assertions_hold.
Defined.

Lemma unknown_variant_no_preset_witness :
  load_variant "V99" = [] /\
  (forall feature_vars, variant_constraints feature_vars (load_variant "V99") = []) /\
  exists feature_vars fm_constraints,
    compile_feature_model sample_model = Some (feature_vars, fm_constraints) /\
    let cs := fm_constraints ++ req_constraints feature_vars
              ++ snd (build_latency_model sample_bounds feature_vars)
              ++ empirical_constraints sample_bounds "V99" in
    assertions sample_bounds sample_model "V99" = Some (feature_vars, cs) /\
    @synthesize_variant search_solver sample_bounds sample_model "V99"
    = Some (match @check search_solver cs with
            | sat m => Some (beval m <$> feature_vars)
            | _ => None
            end).
Proof.
  apply (@unknown_variant_no_preset search_solver sample_bounds sample_model "V99");
    discriminate.
Defined.

Lemma result_keys_are_features_witness :
  dom sample_result = feature_names sample_model /\
  exists feature_vars cs m,
    assertions sample_bounds sample_model "V3" = Some (feature_vars, cs) /\
    @check search_solver cs = sat m /\
    (forall k, sample_result !! k
               = if decide (k ∈ feature_names sample_model)
                 then Some (bool_val m k) else None) /\
    (forall m', bool_val m' = bool_val m -> beval m' <$> feature_vars = sample_result).
Proof.
  apply (@result_keys_are_features search_solver sample_bounds sample_model "V3").
  exact sample_run.
Defined.

(** * Further properties of the compiler and the orchestrator *)

(** ** Induction on terms, and what a value depends on *)

Section term_induction.
Variables (P : bexpr -> Prop) (R : aexpr -> Prop).
Hypothesis HBoolVal : forall b, P (BoolVal b).
Hypothesis HBool : forall x, P (Bool x).
Hypothesis HOr : forall args, Forall P args -> P (Or args).
Hypothesis HAnd : forall a b, P a -> P b -> P (And a b).
Hypothesis HNot : forall a, P a -> P (Not a).
Hypothesis HImplies : forall a b, P a -> P b -> P (Implies a b).
Hypothesis HEqB : forall a b, P a -> P b -> P (EqB a b).
Hypothesis HEqA : forall x y, R x -> R y -> P (EqA x y).
Hypothesis HLe : forall x y, R x -> R y -> P (Le x y).
Hypothesis HGe : forall x y, R x -> R y -> P (Ge x y).
Hypothesis HIntVal : forall z, R (IntVal z).
Hypothesis HRealVal : forall q, R (RealVal q).
Hypothesis HInt : forall x, R (Int x).
Hypothesis HReal : forall x, R (Real x).
Hypothesis HIf : forall c t e, P c -> R t -> R e -> R (If c t e).
Hypothesis HAdd : forall x y, R x -> R y -> R (Add x y).
Hypothesis HSum : forall args, Forall R args -> R (Sum args).

Fixpoint bexpr_mut (e : bexpr) : P e :=
  match e with
  | BoolVal b => HBoolVal b
  | Bool x => HBool x
  | Or args =>
      HOr args ((fix go (l : list bexpr) : Forall P l :=
                   match l with
                   | [] => @List.Forall_nil _ P
                   | c :: l' => @List.Forall_cons _ P c l' (bexpr_mut c) (go l')
                   end) args)
  | And a b => HAnd a b (bexpr_mut a) (bexpr_mut b)
  | Not a => HNot a (bexpr_mut a)
  | Implies a b => HImplies a b (bexpr_mut a) (bexpr_mut b)
  | EqB a b => HEqB a b (bexpr_mut a) (bexpr_mut b)
  | EqA x y => HEqA x y (aexpr_mut x) (aexpr_mut y)
  | Le x y => HLe x y (aexpr_mut x) (aexpr_mut y)
  | Ge x y => HGe x y (aexpr_mut x) (aexpr_mut y)
  end
with aexpr_mut (e : aexpr) : R e :=
  match e with
  | IntVal z => HIntVal z
  | RealVal q => HRealVal q
  | Int x => HInt x
  | Real x => HReal x
  | If c t e' => HIf c t e' (bexpr_mut c) (aexpr_mut t) (aexpr_mut e')
  | Add x y => HAdd x y (aexpr_mut x) (aexpr_mut y)
  | Sum args =>
      HSum args ((fix go (l : list aexpr) : Forall R l :=
                    match l with
                    | [] => @List.Forall_nil _ R
                    | c :: l' => @List.Forall_cons _ R c l' (aexpr_mut c) (go l')
                    end) args)
  end.

Lemma term_mutind : (forall e, P e) /\ (forall e, R e).
Proof. split; [exact bexpr_mut | exact aexpr_mut]. Qed.

End term_induction.

Lemma agree_on_app m m' bs1 bs2 zs1 zs2 rs1 rs2 :
  agree_on m m' (bs1 ++ bs2) (zs1 ++ zs2) (rs1 ++ rs2) ->
  agree_on m m' bs1 zs1 rs1 /\ agree_on m m' bs2 zs2 rs2.
Proof.
  intros (Hb & Hi & Hr).
  split; (split_and!; intros x Hx; [apply Hb | apply Hi | apply Hr];
          apply elem_of_app; auto).
Qed.

Lemma agree_on_flat_map {A} (fb fi fr : A -> list string) m m' (l : list A) a :
  a ∈ l ->
  agree_on m m' (flat_map fb l) (flat_map fi l) (flat_map fr l) ->
  agree_on m m' (fb a) (fi a) (fr a).
Proof.
  intros Ha (Hb & Hi & Hr). apply list_elem_of_In in Ha.
  split_and!; intros x Hx; [apply Hb | apply Hi | apply Hr];
    apply list_elem_of_In, in_flat_map; exists a; split; try done;
    by apply list_elem_of_In.
Qed.

Lemma eval_agree (m m' : model) :
  (forall e, agree_on m m' (bool_consts e) (int_consts e) (real_consts e) ->
             beval m e = beval m' e) /\
  (forall e, agree_on m m' (arith_bool_consts e) (arith_int_consts e)
                           (arith_real_consts e) ->
             aeval m e = aeval m' e).
Proof.
  apply term_mutind; simpl.
  - done.
  - intros x (Hb & _). apply Hb. constructor.
  - intros args IH Hag. induction IH as [|c l Hc Hl IHl]; [done|].
    simpl. f_equal.
    + apply Hc. eapply (agree_on_flat_map _ _ _ _ _ (c :: l)); [constructor | done].
    + apply IHl. simpl in Hag. by apply agree_on_app in Hag as [_ ?].
  - intros a b Ha Hb Hag. apply agree_on_app in Hag as [? ?]. f_equal; auto.
  - intros a Ha Hag. f_equal; auto.
  - intros a b Ha Hb Hag. apply agree_on_app in Hag as [? ?]. f_equal; auto.
  - intros a b Ha Hb Hag. apply agree_on_app in Hag as [? ?]. f_equal; auto.
  - intros x y Hx Hy Hag. apply agree_on_app in Hag as [? ?]. f_equal; auto.
  - intros x y Hx Hy Hag. apply agree_on_app in Hag as [? ?]. f_equal; auto.
  - intros x y Hx Hy Hag. apply agree_on_app in Hag as [? ?]. f_equal; auto.
  - done.
  - done.
  - intros x (_ & Hi & _). f_equal. apply Hi. constructor.
  - intros x (_ & _ & Hr). apply Hr. constructor.
  - intros c t e Hc Ht He Hag.
    apply agree_on_app in Hag as [? Hag]. apply agree_on_app in Hag as [? ?].
    rewrite Hc, Ht, He by done. done.
  - intros x y Hx Hy Hag. apply agree_on_app in Hag as [? ?]. f_equal; auto.
  - intros args IH Hag. induction IH as [|c l Hc Hl IHl]; [done|].
    simpl. f_equal.
    + apply Hc. eapply (agree_on_flat_map _ _ _ _ _ (c :: l)); [constructor | done].
    + apply IHl. simpl in Hag. by apply agree_on_app in Hag as [_ ?].
Qed.

(** ** Which constants the assertions mention *)

Lemma boolean_over_scoped names c : boolean_over names c -> scoped names c.
Proof.
  intros (Hb & Hi & Hr). split_and!; [done| |]; intros x; rewrite ?Hi, ?Hr;
    by intros ?%elem_of_nil.
Qed.

Lemma bool_consts_Bools (ns : list string) :
  flat_map bool_consts (Bool <$> ns) = ns /\
  flat_map int_consts (Bool <$> ns) = [] /\
  flat_map real_consts (Bool <$> ns) = [].
Proof.
  induction ns as [|n ns IH]; [done|].
  destruct IH as (IH1 & IH2 & IH3).
  rewrite fmap_cons. cbn [flat_map]. rewrite ?fmap_cons. cbn [flat_map].
  rewrite ?IH1, ?IH2, ?IH3. done.
Qed.

Lemma bool_consts_indicators (ns : list string) :
  flat_map arith_bool_consts (indicator <$> (Bool <$> ns)) = ns /\
  flat_map arith_int_consts (indicator <$> (Bool <$> ns)) = [] /\
  flat_map arith_real_consts (indicator <$> (Bool <$> ns)) = [].
Proof.
  induction ns as [|n ns IH]; [done|].
  destruct IH as (IH1 & IH2 & IH3).
  rewrite fmap_cons. cbn [flat_map]. rewrite ?fmap_cons. cbn [flat_map].
  rewrite ?IH1, ?IH2, ?IH3. done.
Qed.

Lemma boolean_over_Or (names : gset string) (ns : list string) :
  (forall n, n ∈ ns -> n ∈ names) -> boolean_over names (Or (Bool <$> ns)).
Proof.
  intros Hns. destruct (bool_consts_Bools ns) as (Hb & Hi & Hr).
  unfold boolean_over. cbn [bool_consts int_consts real_consts].
  by rewrite Hb, Hi, Hr.
Qed.

Lemma boolean_over_exactly_one (names : gset string) (ns : list string) :
  (forall n, n ∈ ns -> n ∈ names) ->
  boolean_over names (EqA (Sum (indicator <$> (Bool <$> ns))) (IntVal 1)).
Proof.
  intros Hns. destruct (bool_consts_indicators ns) as (Hb & Hi & Hr).
  unfold boolean_over.
  cbn [bool_consts int_consts real_consts
       arith_bool_consts arith_int_consts arith_real_consts].
  by rewrite Hb, Hi, Hr, !app_nil_r.
Qed.

Lemma alt_block_cons (ns : list string) :
  ns <> [] ->
  alt_block (Bool <$> ns)
  = [Or (Bool <$> ns); EqA (Sum (indicator <$> (Bool <$> ns))) (IntVal 1)].
Proof. by destruct ns. Qed.

Lemma alt_block_boolean (names : gset string) (ns : list string) :
  (forall n, n ∈ ns -> n ∈ names) ->
  Forall (boolean_over names) (alt_block (Bool <$> ns)).
Proof.
  intros Hns. destruct (decide (ns = [])) as [-> | Hne]; [constructor|].
  rewrite alt_block_cons by done.
  constructor; [by apply boolean_over_Or|].
  constructor; [by apply boolean_over_exactly_one | constructor].
Qed.

Lemma alt_child_names_declared (root alt : element) (n : string) :
  In alt (descendants root) -> n ∈ alt_child_names alt -> n ∈ feature_names root.
Proof.
  intros Halt Hn. unfold alt_child_names in Hn.
  apply list_elem_of_omap in Hn as (c & Hc & Hname).
  apply list_elem_of_In, feature_child_named in Hc as [Hc _].
  apply elem_of_feature_names. exists c. split; [|done].
  eapply in_descendants_trans; [done|]. by apply in_descendants_child.
Qed.

Lemma holds_all_cons (m : model) (c : bexpr) (cs : list bexpr) :
  holds_all m (c :: cs) = true <-> beval m c = true /\ holds_all m cs = true.
Proof. unfold holds_all. simpl. by rewrite andb_true_iff. Qed.

(** A key of the feature variables, looked up by an attribute value. *)
Lemma getitem_Some (names : gset string) (key : option string) (v : bexpr) :
  getitem (feature_vars_of names) key = Some v ->
  exists n, key = Some n /\ n ∈ names /\ v = Bool n.
Proof.
  destruct key as [n|]; [|done]. simpl.
  rewrite feature_vars_of_lookup. case_decide; [|done].
  intros [= <-]. eauto.
Qed.

Lemma boolean_over_names (names : gset string) (c : bexpr) (ns : list string) :
  bool_consts c = ns -> int_consts c = [] -> real_consts c = [] ->
  (forall n, n ∈ ns -> n ∈ names) -> boolean_over names c.
Proof. intros <- ? ? ?. by split_and!. Qed.

Lemma requires_constraints_boolean (names : gset string) (req : element) :
  Forall (boolean_over names) (requires_constraints (feature_vars_of names) req).
Proof.
  unfold requires_constraints.
  destruct (getitem _ (get req "a")) as [va|] eqn:Ha; [|constructor].
  destruct (getitem _ (get req "b")) as [vb|] eqn:Hb; [|constructor].
  apply getitem_Some in Ha as (a & _ & Hina & ->).
  apply getitem_Some in Hb as (b & _ & Hinb & ->).
  constructor; [|constructor]. apply (boolean_over_names _ _ [a; b]); try done.
  intros n. rewrite !elem_of_cons, elem_of_nil. by intros [-> | [-> | []]].
Qed.

Lemma excludes_constraints_boolean (names : gset string) (exc : element) :
  Forall (boolean_over names) (excludes_constraints (feature_vars_of names) exc).
Proof.
  unfold excludes_constraints.
  destruct (getitem _ (get exc "a")) as [va|] eqn:Ha; [|constructor].
  destruct (getitem _ (get exc "b")) as [vb|] eqn:Hb; [|constructor].
  apply getitem_Some in Ha as (a & _ & Hina & ->).
  apply getitem_Some in Hb as (b & _ & Hinb & ->).
  constructor; [|constructor]. apply (boolean_over_names _ _ [a; b]); try done.
  intros n. rewrite !elem_of_cons, elem_of_nil. by intros [-> | [-> | []]].
Qed.

Lemma Forall_flat_map {A B} (P : B -> Prop) (f : A -> list B) (l : list A) :
  (forall a, In a l -> Forall P (f a)) -> Forall P (flat_map f l).
Proof.
  intros H. apply Forall_forall. intros b Hb.
  apply list_elem_of_In, in_flat_map in Hb as (a & Ha & Hb).
  specialize (H a Ha). rewrite Forall_forall in H. by apply H, list_elem_of_In.
Qed.

Lemma fm_constraints_boolean (root : element) :
  Forall (boolean_over (feature_names root)) (fm_constraints_of root).
Proof.
  unfold fm_constraints_of. rewrite !Forall_app. split_and!.
  - apply Forall_forall. intros c Hc.
    apply list_elem_of_In, in_concat in Hc as (blk & Hblk & Hc).
    apply list_elem_of_In, list_elem_of_fmap in Hblk as (alt & -> & Halt).
    apply list_elem_of_In, in_xpath_desc in Halt as [Halt _].
    pose proof (alt_block_boolean (feature_names root) (alt_child_names alt)) as Hb.
    rewrite Forall_forall in Hb. apply Hb; [|by apply list_elem_of_In].
    intros n. by apply alt_child_names_declared.
  - apply Forall_flat_map. intros. apply requires_constraints_boolean.
  - apply Forall_flat_map. intros. apply excludes_constraints_boolean.
Qed.

Lemma req_constraints_boolean (names : gset string) :
  Forall (boolean_over names) (req_constraints (feature_vars_of names)).
Proof.
  unfold req_constraints. rewrite feature_vars_of_lookup.
  case_decide; [|constructor]. constructor; [|constructor].
  apply (boolean_over_names _ _ ["SecOC_Protection"]); try done.
  by intros n ->%list_elem_of_singleton.
Qed.

Lemma variant_constraints_boolean (names : gset string) (vsel : list (string * bool)) :
  Forall (boolean_over names) (variant_constraints (feature_vars_of names) vsel).
Proof.
  unfold variant_constraints. apply Forall_flat_map. intros [fname val] _.
  rewrite feature_vars_of_lookup. case_decide; [|constructor].
  constructor; [|constructor].
  apply (boolean_over_names _ _ [fname]); try done.
  by intros n ->%list_elem_of_singleton.
Qed.

Lemma dict_get_feature (names : gset string) (key : string) :
  dict_get (feature_vars_of names) key (BoolVal false)
  = if decide (key ∈ names) then Bool key else BoolVal false.
Proof. unfold dict_get. rewrite feature_vars_of_lookup. by case_decide. Qed.

Lemma latency_cost_consts (names : gset string) :
  (forall x, x ∈ arith_bool_consts (latency_cost (feature_vars_of names)) ->
             x ∈ names) /\
  arith_int_consts (latency_cost (feature_vars_of names)) = [] /\
  arith_real_consts (latency_cost (feature_vars_of names)) = [].
Proof.
  unfold latency_cost. rewrite !dict_get_feature.
  repeat case_decide; split_and!; try done; simpl; intros x Hx;
    repeat (apply elem_of_cons in Hx as [-> | Hx]; [done|]);
    by apply elem_of_nil in Hx.
Qed.

Lemma latency_constraint_scoped (names : gset string) :
  scoped names (EqA latency_ms (latency_cost (feature_vars_of names))).
Proof.
  destruct (latency_cost_consts names) as (Hb & Hi & Hr).
  unfold scoped, latency_ms.
  cbn [bool_consts int_consts real_consts
       arith_bool_consts arith_int_consts arith_real_consts].
  rewrite Hi, Hr. split_and!; [done | by intros x ?%elem_of_nil|].
  by intros x ->%list_elem_of_singleton.
Qed.

Lemma empirical_constraints_scoped (names : gset string) (lo : Z) (hi : Q) :
  Forall (scoped names) (empirical_constraints_with lo hi).
Proof.
  unfold empirical_constraints_with, scoped.
  constructor; [|constructor; [|constructor]]; simpl; split_and!; intros x Hx;
    try (by apply elem_of_nil in Hx); by apply list_elem_of_singleton in Hx.
Qed.

Lemma assertion_list_scoped (root : element) (variant_name : string)
    (window_lo : Z) (cost_hi : Q) :
  Forall (scoped (feature_names root))
    (fm_constraints_of root
     ++ req_constraints (feature_vars_of (feature_names root))
     ++ variant_constraints (feature_vars_of (feature_names root))
          (load_variant variant_name)
     ++ [EqA latency_ms (latency_cost (feature_vars_of (feature_names root)))]
     ++ empirical_constraints_with window_lo cost_hi).
Proof.
  rewrite !Forall_app. split_and!.
  - eapply Forall_impl; [apply fm_constraints_boolean|]. apply boolean_over_scoped.
  - eapply Forall_impl; [apply req_constraints_boolean|]. apply boolean_over_scoped.
  - eapply Forall_impl; [apply variant_constraints_boolean|]. apply boolean_over_scoped.
  - constructor; [apply latency_constraint_scoped | constructor].
  - apply empirical_constraints_scoped.
Qed.

(** ** The run on floats, and its finite case *)

Lemma raw_cost_upper_bound_of_finite (bounds : EmpiricalBounds) (v : string) :
  Raw.cost_upper_bound (of_finite bounds) v = Finite (cost_upper_bound bounds v).
Proof.
  unfold Raw.cost_upper_bound, cost_upper_bound, of_finite. simpl.
  rewrite lookup_fmap.
  destruct (d3_max_latency_by_variant bounds !! v) as [l|]; simpl;
    unfold Raw.py_min, py_min, Raw.float_lt; by destruct (Qlt_le_dec _ _).
Qed.

Lemma raw_assertions_finite (bounds : Raw.EmpiricalBounds) (root : element)
    (v : string) (q hi : Q) :
  Raw.d1_min_interarrival_ms bounds = Finite q ->
  Raw.cost_upper_bound bounds v = Finite hi ->
  Raw.assertions bounds root v
  = inr (feature_vars_of (feature_names root),
         fm_constraints_of root
         ++ req_constraints (feature_vars_of (feature_names root))
         ++ variant_constraints (feature_vars_of (feature_names root))
              (load_variant v)
         ++ [EqA latency_ms (latency_cost (feature_vars_of (feature_names root)))]
         ++ empirical_constraints_with (py_int q) hi).
Proof.
  intros Hd1 Hhi. unfold Raw.assertions, Raw.empirical_constraints.
  by rewrite compile_feature_model_eq, Hd1, Hhi.
Qed.

(** On a record of finite floats the assertions are those of the finite
    model. *)
Lemma raw_assertions_of_finite (bounds : EmpiricalBounds) (root : element)
    (v : string) :
  Raw.assertions (of_finite bounds) root v
  = inr (feature_vars_of (feature_names root),
         fm_constraints_of root
         ++ req_constraints (feature_vars_of (feature_names root))
         ++ variant_constraints (feature_vars_of (feature_names root))
              (load_variant v)
         ++ [EqA latency_ms (latency_cost (feature_vars_of (feature_names root)))]
         ++ empirical_constraints bounds v).
Proof.
  apply (raw_assertions_finite (of_finite bounds) root v
           (d1_min_interarrival_ms bounds) (cost_upper_bound bounds v));
    [reflexivity | apply raw_cost_upper_bound_of_finite].
Qed.

(** X5: whenever the list of assertions is built (no float read is NaN or
    infinite), every assertion in it mentions only declared features as
    Boolean constants, no integer constant but [freshness_window_ms] and no
    real constant but [latency_ms]. *)
Theorem assertions_scoped (bounds : Raw.EmpiricalBounds) (root : element)
    (variant_name : string) feature_vars cs :
  Raw.assertions bounds root variant_name = inr (feature_vars, cs) ->
  Forall (scoped (feature_names root)) cs.
Proof.
  unfold Raw.assertions, Raw.empirical_constraints.
  rewrite compile_feature_model_eq. cbv zeta. simpl Raw.build_latency_model.
  destruct (Raw.py_int _) as [e|lo]; [discriminate|].
  destruct (Raw.cost_upper_bound bounds variant_name) as [hi| |];
    simpl; try discriminate.
  intros [= <- <-].
  apply (assertion_list_scoped root variant_name lo hi).
Qed.

(** ** The returned mapping as a configuration *)

Lemma boolean_over_eval (names : gset string) (m m' : model) (c : bexpr) :
  boolean_over names c ->
  (forall x, x ∈ names -> bool_val m x = bool_val m' x) ->
  beval m c = beval m' c.
Proof.
  intros (Hb & Hi & Hr) Hag. apply (proj1 (eval_agree m m')).
  unfold agree_on. rewrite Hi, Hr.
  split_and!; [by auto | |]; by intros x ?%elem_of_nil.
Qed.

Lemma boolean_over_holds (names : gset string) (m m' : model) (cs : list bexpr) :
  Forall (boolean_over names) cs ->
  (forall x, x ∈ names -> bool_val m x = bool_val m' x) ->
  holds_all m cs = true -> holds_all m' cs = true.
Proof.
  intros Hcs Hag. unfold holds_all. rewrite !forallb_forall.
  intros Hm c Hc. rewrite Forall_forall in Hcs.
  rewrite <- (boolean_over_eval names m m' c); [by apply Hm| |done].
  by apply Hcs, list_elem_of_In.
Qed.

Lemma valuation_of_result (names : gset string) (m : model) iv rv (x : string) :
  x ∈ names ->
  bool_val m x = bool_val (valuation_of (beval m <$> feature_vars_of names) iv rv) x.
Proof. intros Hx. simpl. by rewrite result_lookup, decide_True. Qed.

Section configurations.
Context `{!Solver}.

(** X9: a returned mapping, read as a valuation of the features, satisfies
    the structural, policy and preset assertions by itself, whatever the
    numeric constants are. *)
Theorem result_is_valid_configuration bounds root variant_name d :
  synthesize_variant bounds root variant_name = Some (Some d) ->
  exists feature_vars fm_constraints,
    compile_feature_model root = Some (feature_vars, fm_constraints) /\
    forall iv rv,
      holds_all (valuation_of d iv rv)
        (fm_constraints ++ req_constraints feature_vars
         ++ variant_constraints feature_vars (load_variant variant_name)) = true.
Proof.
  intros Hs.
  apply synthesize_variant_model in Hs
    as (cs & m & _ & _ & -> & Hfm & Hreq & Hv & _).
  eexists _, _. split; [apply compile_feature_model_eq|].
  intros iv rv. rewrite !holds_all_app.
  split_and!;
    (eapply (boolean_over_holds (feature_names root) m);
     [|intros x Hx; by apply valuation_of_result|done]).
  - apply fm_constraints_boolean.
  - apply req_constraints_boolean.
  - apply variant_constraints_boolean.
Qed.

(** X10: the latency cost computed from a returned mapping is at most the
    cost bound of the request. *)
Theorem result_cost_within_bound bounds root variant_name d :
  synthesize_variant bounds root variant_name = Some (Some d) ->
  exists feature_vars fm_constraints,
    compile_feature_model root = Some (feature_vars, fm_constraints) /\
    forall iv rv,
      (aeval (valuation_of d iv rv) (latency_cost feature_vars)
       <= cost_upper_bound bounds variant_name)%Q.
Proof.
  intros Hs.
  apply synthesize_variant_model in Hs
    as (cs & m & _ & _ & -> & _ & _ & _ & Hl & He).
  eexists _, _. split; [apply compile_feature_model_eq|].
  intros iv rv.
  destruct (latency_cost_consts (feature_names root)) as (Hb & Hi & Hr).
  rewrite <- (proj2 (eval_agree m _)).
  - unfold empirical_constraints, empirical_constraints_with in He.
    simpl in He, Hl.
    apply andb_true_iff in He as [_ He]. rewrite andb_true_r in He, Hl.
    apply Qle_bool_iff in He. apply Qeq_bool_iff in Hl.
    by rewrite <- Hl.
  - unfold agree_on. rewrite Hi, Hr.
    split_and!; [|by intros x ?%elem_of_nil..].
    intros x Hx. by apply valuation_of_result, Hb.
Qed.

End configurations.

(** X13: the lower bound put on the freshness window never changes
    whether the assertions are satisfiable. *)
Theorem window_bound_irrelevant root variant_name bounds (lo lo' : Z) (hi : Q)
    feature_vars cs :
  assertions_with root variant_name bounds (empirical_constraints_with lo hi)
    = Some (feature_vars, cs) ->
  satisfiable cs ->
  exists cs',
    assertions_with root variant_name bounds (empirical_constraints_with lo' hi)
      = Some (feature_vars, cs') /\
    satisfiable cs'.
Proof.
  intros Ha [m Hm].
  rewrite assertions_with_eq in Ha. cbv zeta in Ha. injection Ha as <- <-.
  eexists. split; [by rewrite assertions_with_eq|]. cbv zeta.
  set (names := feature_names root) in *.
  set (m' := Model (bool_val m) (fun _ => lo') (real_val m)).
  exists m'.
  cbn [app] in Hm |- *.
  rewrite !holds_all_app, holds_all_cons in Hm.
  destruct Hm as (Hfm & Hreq & Hv & Hl & He).
  rewrite !holds_all_app, holds_all_cons. split_and!.
  - by eapply (boolean_over_holds names m); [apply fm_constraints_boolean| |].
  - by eapply (boolean_over_holds names m); [apply req_constraints_boolean| |].
  - by eapply (boolean_over_holds names m); [apply variant_constraints_boolean| |].
  - destruct (latency_cost_consts names) as (Hb & Hi & Hr).
    rewrite <- (proj1 (eval_agree m m')); [done|].
    unfold agree_on.
    cbn [bool_consts int_consts real_consts
         arith_bool_consts arith_int_consts arith_real_consts latency_ms].
    rewrite Hi. split_and!; try done.
    by intros x ?%elem_of_nil.
  - unfold empirical_constraints_with in *. simpl in He |- *.
    apply andb_true_iff in He as [_ He]. rewrite He, andb_true_r.
    apply Qle_bool_iff, Qle_refl.
Qed.

(** ** Excludes edges, duplicated children, and what the root contributes *)

Lemma excludes_in_fm (root exc : element) (c : bexpr) :
  In exc (xpath_desc "excludes" root) ->
  c ∈ excludes_constraints (feature_vars_of (feature_names root)) exc ->
  c ∈ fm_constraints_of root.
Proof.
  intros Hexc Hc. unfold fm_constraints_of.
  apply elem_of_app. right. apply elem_of_app. right.
  apply list_elem_of_In, in_flat_map. exists exc.
  split; [done | by apply list_elem_of_In].
Qed.

Lemma excludes_constraints_resolved (names : gset string) (exc : element) a b :
  get exc "a" = Some a -> get exc "b" = Some b -> a ∈ names -> b ∈ names ->
  excludes_constraints (feature_vars_of names) exc = [Not (And (Bool a) (Bool b))].
Proof.
  intros Ha Hb Hina Hinb. unfold excludes_constraints. rewrite Ha, Hb. simpl.
  by rewrite !feature_vars_of_lookup, !decide_True by done.
Qed.

(** X1: an excludes edge whose two names are declared compiles to the
    negated conjunction, so no model of the compiled assertions has both
    true; an edge with an unknown or absent name contributes nothing. *)
Theorem excludes_edges_compiled (root : element) :
  exists feature_vars fm_constraints,
    compile_feature_model root = Some (feature_vars, fm_constraints) /\
    forall exc, In exc (xpath_desc "excludes" root) ->
      (forall a b,
         get exc "a" = Some a -> get exc "b" = Some b ->
         a ∈ feature_names root -> b ∈ feature_names root ->
         excludes_constraints feature_vars exc = [Not (And (Bool a) (Bool b))] /\
         Not (And (Bool a) (Bool b)) ∈ fm_constraints /\
         forall m, holds_all m fm_constraints = true ->
           ~ (bool_val m a = true /\ bool_val m b = true)) /\
      ((forall a, get exc "a" = Some a -> a ∉ feature_names root) \/
       (forall b, get exc "b" = Some b -> b ∉ feature_names root) ->
       excludes_constraints feature_vars exc = []).
Proof.
  eexists _, _. split; [apply compile_feature_model_eq|].
  intros exc Hexc. split.
  - intros a b Ha Hb Hina Hinb.
    pose proof (excludes_constraints_resolved _ exc a b Ha Hb Hina Hinb) as Heq.
    assert (Hmem : Not (And (Bool a) (Bool b)) ∈ fm_constraints_of root).
    { apply (excludes_in_fm root exc); [done|]. rewrite Heq. constructor. }
    split_and!; [done..|].
    intros m Hm [Hva Hvb]. apply (holds_all_elem m _ _ Hm) in Hmem.
    simpl in Hmem. by rewrite Hva, Hvb in Hmem.
  - intros Hunk. unfold excludes_constraints.
    destruct Hunk as [Hunk | Hunk].
    + destruct (get exc "a") as [a|]; [|done]. simpl.
      by rewrite feature_vars_of_lookup, decide_False by by apply Hunk.
    + destruct (getitem _ (get exc "a")) as [va|]; [|done].
      destruct (get exc "b") as [nb|]; [|done]. simpl.
      by rewrite feature_vars_of_lookup, decide_False by by apply Hunk.
Qed.

Lemma filter_true_twice (m : model) (n : string) (l1 l2 l3 : list string) :
  bool_val m n = true ->
  (2 <= length (List.filter (beval m) (Bool <$> (l1 ++ n :: l2 ++ n :: l3))))%nat.
Proof.
  intros Hn.
  rewrite fmap_app, List.filter_app, length_app, fmap_cons.
  cbn [List.filter beval]. rewrite Hn. cbn [length].
  rewrite fmap_app, List.filter_app, length_app, fmap_cons.
  cbn [List.filter beval]. rewrite Hn. cbn [length]. lia.
Qed.

Lemma compile_feature_model_inv (root : element) feature_vars fm_constraints :
  compile_feature_model root = Some (feature_vars, fm_constraints) ->
  feature_vars = feature_vars_of (feature_names root) /\
  fm_constraints = fm_constraints_of root.
Proof. rewrite compile_feature_model_eq. by intros [= <- <-]. Qed.

(** X4: a feature that occurs twice among the children of one alternative
    group is false in every model of the compiled assertions. *)
Theorem duplicated_alternative_is_false (root alt : element) (n : string)
    (l1 l2 l3 : list string) feature_vars fm_constraints (m : model) :
  compile_feature_model root = Some (feature_vars, fm_constraints) ->
  In alt (xpath_desc "alt" root) ->
  alt_child_names alt = l1 ++ n :: l2 ++ n :: l3 ->
  holds_all m fm_constraints = true ->
  bool_val m n = false.
Proof.
  intros [-> ->]%compile_feature_model_inv Halt Hdup Hm.
  assert (Hne : alt_child_names alt <> []) by (rewrite Hdup; by destruct l1).
  assert (Hsum : EqA (Sum (indicator <$> (Bool <$> alt_child_names alt))) (IntVal 1)
                   ∈ fm_constraints_of root).
  { apply (alt_block_in_fm root alt); [done|].
    rewrite alt_block_cons by done. do 2 constructor. }
  apply (holds_all_elem m _ _ Hm) in Hsum.
  change (Qeq_bool (aeval m (Sum (indicator <$> (Bool <$> alt_child_names alt))))
                   (inject_Z 1) = true) in Hsum.
  apply Qeq_bool_iff in Hsum. rewrite aeval_sum_indicators in Hsum.
  unfold Qeq in Hsum. simpl in Hsum.
  destruct (bool_val m n) eqn:Hn; [exfalso|done].
  pose proof (filter_true_twice m n l1 l2 l3 Hn) as Htwo.
  rewrite Hdup in Hsum. lia.
Qed.

(** X15: the only child of an alternative group is true in every model of
    the compiled assertions. *)
Theorem single_alternative_is_mandatory (root alt : element) (n : string)
    feature_vars fm_constraints (m : model) :
  compile_feature_model root = Some (feature_vars, fm_constraints) ->
  In alt (xpath_desc "alt" root) ->
  alt_child_names alt = [n] ->
  holds_all m fm_constraints = true ->
  bool_val m n = true.
Proof.
  intros [-> ->]%compile_feature_model_inv Halt Hone Hm.
  assert (Hor : Or (Bool <$> alt_child_names alt) ∈ fm_constraints_of root).
  { apply (alt_block_in_fm root alt); [done|].
    rewrite alt_block_cons by (by rewrite Hone). constructor. }
  apply (holds_all_elem m _ _ Hm) in Hor. rewrite Hone in Hor.
  simpl in Hor. by rewrite orb_false_r in Hor.
Qed.


(** ** The latency model *)

Lemma latency_cost_agree (names : gset string) (m m' : model) :
  (forall x, x ∈ ["MAC_32"; "MAC_64"; "AES_128"; "Fresh_Counter"] ->
             bool_val m x = bool_val m' x) ->
  aeval m (latency_cost (feature_vars_of names))
  = aeval m' (latency_cost (feature_vars_of names)).
Proof.
  intros Hag. unfold latency_cost. rewrite !dict_get_feature.
  cbn [aeval].
  assert (H32 := Hag "MAC_32" ltac:(repeat constructor)).
  assert (H64 := Hag "MAC_64" ltac:(repeat constructor)).
  assert (H128 := Hag "AES_128" ltac:(repeat constructor)).
  assert (Hfc := Hag "Fresh_Counter" ltac:(repeat constructor)).
  repeat case_decide; cbn [beval]; by rewrite ?H32, ?H64, ?H128, ?Hfc.
Qed.

Lemma latency_cost_fallback (names : gset string) (m : model) :
  "MAC_32" ∉ names -> "MAC_64" ∉ names ->
  "AES_128" ∉ names -> "Fresh_Counter" ∉ names ->
  (aeval m (latency_cost (feature_vars_of names)) == 59 # 10)%Q.
Proof.
  intros H1 H2 H3 H4. unfold latency_cost. rewrite !dict_get_feature.
  rewrite !decide_False by done. reflexivity.
Qed.

(** X6: over the compiled feature variables the cost depends on the values
    of [MAC_32], [MAC_64], [AES_128] and [Fresh_Counter] only; [MAC_128],
    [AES_256] and [Fresh_Timestamp] are looked up but never move it. *)
Theorem latency_cost_depends_on (root : element) feature_vars fm_constraints
    (m m' : model) :
  compile_feature_model root = Some (feature_vars, fm_constraints) ->
  (forall x, x ∈ ["MAC_32"; "MAC_64"; "AES_128"; "Fresh_Counter"] ->
             bool_val m x = bool_val m' x) ->
  aeval m (latency_cost feature_vars) = aeval m' (latency_cost feature_vars).
Proof.
  intros [-> _]%compile_feature_model_inv. apply latency_cost_agree.
Qed.

Section more_runs.
Context `{!Solver}.

(** X8: the run raises [ValueError] when the minimum inter-arrival time is
    NaN, [OverflowError] when it is infinite, and a Z3 error when the cost
    bound [min(...)] is NaN or infinite; in every other case it returns, a
    mapping or the infeasible signal, the result of the finite model on the
    two floats it reads.  The lookups of the compiler never raise
    [KeyError]. *)
Theorem synthesize_variant_outcome (bounds : Raw.EmpiricalBounds)
    (root : element) (variant_name : string) :
  match Raw.d1_min_interarrival_ms bounds with
  | NaN => Raw.synthesize_variant bounds root variant_name = inl ValueError
  | Infinity _ => Raw.synthesize_variant bounds root variant_name = inl OverflowError
  | Finite q =>
      match Raw.cost_upper_bound bounds variant_name with
      | Finite hi =>
          exists result,
            Raw.synthesize_variant bounds root variant_name = inr result /\
            synthesize_variant (finite_view q hi) root variant_name = Some result
      | _ => Raw.synthesize_variant bounds root variant_name = inl Z3Exception
      end
  end.
Proof.
  unfold Raw.synthesize_variant.
  destruct (Raw.d1_min_interarrival_ms bounds) as [q| |] eqn:Hd1.
  - destruct (Raw.cost_upper_bound bounds variant_name) as [hi| |] eqn:Hhi.
    + rewrite (raw_assertions_finite bounds root variant_name q hi Hd1 Hhi).
      eexists. split; [reflexivity|].
      unfold synthesize_variant. rewrite assertions_eq. cbv zeta.
      unfold empirical_constraints, cost_upper_bound, finite_view. simpl.
      rewrite lookup_empty. simpl.
      unfold py_min. by destruct (Qlt_le_dec hi hi).
    + unfold Raw.assertions, Raw.empirical_constraints.
      by rewrite compile_feature_model_eq, Hd1, Hhi.
    + unfold Raw.assertions, Raw.empirical_constraints.
      by rewrite compile_feature_model_eq, Hd1, Hhi.
  - unfold Raw.assertions, Raw.empirical_constraints.
    by rewrite compile_feature_model_eq, Hd1.
  - unfold Raw.assertions, Raw.empirical_constraints.
    by rewrite compile_feature_model_eq, Hd1.
Qed.

(** X7: when none of [MAC_32], [MAC_64], [AES_128], [Fresh_Counter] is
    declared, every configuration costs 5.9, and a request whose cost bound
    is below 5.9 is infeasible. *)
Theorem undeclared_cost_features_cost_most bounds root variant_name :
  "MAC_32" ∉ feature_names root -> "MAC_64" ∉ feature_names root ->
  "AES_128" ∉ feature_names root -> "Fresh_Counter" ∉ feature_names root ->
  (forall feature_vars fm_constraints m,
     compile_feature_model root = Some (feature_vars, fm_constraints) ->
     (aeval m (latency_cost feature_vars) == 59 # 10)%Q) /\
  ((cost_upper_bound bounds variant_name < 59 # 10)%Q ->
   synthesize_variant bounds root variant_name = Some None).
Proof.
  intros H1 H2 H3 H4.
  split; [intros fv fm m [-> _]%compile_feature_model_inv;
          by apply latency_cost_fallback|].
  intros Hlow.
  destruct (synthesize_variant_total bounds root variant_name) as [[d|] Hs]; [|done].
  exfalso.
  apply synthesize_variant_model in Hs as (cs & m & _ & _ & _ & _ & _ & _ & Hl & He).
  unfold empirical_constraints, empirical_constraints_with in He.
  rewrite holds_all_cons in Hl. destruct Hl as [Hl _].
  rewrite !holds_all_cons in He. destruct He as (_ & He & _).
  cbn [beval] in Hl, He.
  apply Qle_bool_iff in He. apply Qeq_bool_iff in Hl.
  rewrite (latency_cost_fallback _ m H1 H2 H3 H4) in Hl.
  cbn [aeval latency_ms] in Hl, He. rewrite Hl in He.
  apply (Qlt_irrefl (59 # 10)). eapply Qle_lt_trans; [exact He | exact Hlow].
Qed.

(** X11: with [SecOC_Protection] declared, every declared feature it
    requires is true in a returned mapping. *)
Theorem secoc_requirements_enforced bounds root variant_name d req b :
  synthesize_variant bounds root variant_name = Some (Some d) ->
  In req (xpath_desc "requires" root) ->
  get req "a" = Some "SecOC_Protection" -> get req "b" = Some b ->
  "SecOC_Protection" ∈ feature_names root -> b ∈ feature_names root ->
  d !! b = Some true.
Proof.
  intros Hs Hreq Ha Hb Hsec Hinb.
  apply synthesize_variant_model in Hs
    as (cs & m & _ & _ & -> & Hfm & Hpol & _).
  rewrite result_lookup, decide_True by done. f_equal.
  unfold req_constraints in Hpol.
  rewrite feature_vars_of_lookup, decide_True in Hpol by done.
  rewrite holds_all_cons in Hpol. destruct Hpol as [Hpol _]. cbn [beval] in Hpol.
  assert (Hmem : Implies (Bool "SecOC_Protection") (Bool b) ∈ fm_constraints_of root).
  { apply (requires_in_fm root req); [done|].
    unfold requires_constraints. rewrite Ha, Hb. simpl.
    rewrite !feature_vars_of_lookup, !decide_True by done. constructor. }
  apply (holds_all_elem m _ _ Hfm) in Hmem. cbn [beval] in Hmem.
  by rewrite Hpol in Hmem.
Qed.

(** X12: when the preset of the variant switches on two declared features
    joined by an excludes edge, the run returns the infeasible signal. *)
Theorem conflicting_preset_infeasible bounds root variant_name exc a b :
  (a, true) ∈ load_variant variant_name ->
  (b, true) ∈ load_variant variant_name ->
  In exc (xpath_desc "excludes" root) ->
  get exc "a" = Some a -> get exc "b" = Some b ->
  a ∈ feature_names root -> b ∈ feature_names root ->
  synthesize_variant bounds root variant_name = Some None.
Proof.
  intros Hpa Hpb Hexc Ha Hb Hina Hinb.
  destruct (synthesize_variant_total bounds root variant_name) as [[d|] Hs]; [|done].
  exfalso.
  apply synthesize_variant_model in Hs as (cs & m & _ & _ & _ & Hfm & _ & Hv & _).
  pose proof (preset_constraint_emitted _ _ _ _ Hpa Hina) as Hca.
  pose proof (preset_constraint_emitted _ _ _ _ Hpb Hinb) as Hcb.
  apply (holds_all_elem m _ _ Hv) in Hca, Hcb. cbn [beval] in Hca, Hcb.
  apply Bool.eqb_prop in Hca, Hcb.
  assert (Hmem : Not (And (Bool a) (Bool b)) ∈ fm_constraints_of root).
  { apply (excludes_in_fm root exc); [done|].
    rewrite (excludes_constraints_resolved _ exc a b) by done. constructor. }
  apply (holds_all_elem m _ _ Hfm) in Hmem. cbn [beval] in Hmem.
  by rewrite Hca, Hcb in Hmem.
Qed.

(** X14: the run reads the bounds only through the integer part of the
    minimum inter-arrival time, the global maximum latency and the entry of
    the requested variant; two records that agree there give the same
    assertions and the same result. *)
Theorem unused_bounds_ignored (bounds bounds' : EmpiricalBounds) root variant_name :
  py_int (d1_min_interarrival_ms bounds) = py_int (d1_min_interarrival_ms bounds') ->
  d2_max_auth_latency_ms bounds = d2_max_auth_latency_ms bounds' ->
  d3_max_latency_by_variant bounds !! variant_name
    = d3_max_latency_by_variant bounds' !! variant_name ->
  assertions bounds root variant_name = assertions bounds' root variant_name /\
  synthesize_variant bounds root variant_name
    = synthesize_variant bounds' root variant_name.
Proof.
  intros H1 H2 H3.
  assert (Ha : assertions bounds root variant_name
               = assertions bounds' root variant_name).
  { rewrite !assertions_eq. cbv zeta.
    unfold empirical_constraints, cost_upper_bound. by rewrite H1, H2, H3. }
  split; [done|]. unfold synthesize_variant. by rewrite Ha.
Qed.

End more_runs.

(** ** The feature variables *)

(** X2: every name carried by an element below the root is a key of the
    feature variables, bound to the Boolean constant of that name, however
    many elements carry it; there is no other key. *)
Theorem feature_variables_declared (root : element) :
  exists feature_vars fm_constraints,
    compile_feature_model root = Some (feature_vars, fm_constraints) /\
    forall n,
      ((exists e, In e (descendants root) /\ get e "name" = Some n) ->
       feature_vars !! n = Some (Bool n)) /\
      (~ (exists e, In e (descendants root) /\ get e "name" = Some n) ->
       feature_vars !! n = None).
Proof.
  eexists _, _. split; [apply compile_feature_model_eq|].
  intros n. rewrite feature_vars_of_lookup, <- elem_of_feature_names.
  split; intros Hn; [by rewrite decide_True | by rewrite decide_False].
Qed.

(** ** The further properties on the sample documents *)

Lemma child_feature_declared (root : element) (name : string) :
  In (feature name) (echildren root) -> name ∈ feature_names root.
Proof.
  intros Hin. apply elem_of_feature_names. exists (feature name).
  split; [by apply in_descendants_child | reflexivity].
Qed.

Lemma bare_model_names (n : string) :
  n ∈ feature_names bare_model -> n = "SecOC_Protection".
Proof.
  intros (e & He & Hn)%elem_of_feature_names. simpl in He.
  destruct He as [<- | []]. by injection Hn as <-.
Qed.

Lemma duplicate_model_compiled :
  compile_feature_model duplicate_model
  = Some (feature_vars_of (feature_names duplicate_model),
          fm_constraints_of duplicate_model).
Proof. apply compile_feature_model_eq. Qed.

Lemma sample_model_compiled :
  compile_feature_model sample_model
  = Some (feature_vars_of (feature_names sample_model),
          fm_constraints_of sample_model).
Proof. apply compile_feature_model_eq. Qed.

Lemma duplicated_alternative_is_false_witness :
  bool_val only_mac_64 "MAC_32" = false.
Proof.
  apply (duplicated_alternative_is_false duplicate_model duplicate_alt
           "MAC_32" [] [] ["MAC_64"] _ _ only_mac_64 duplicate_model_compiled).
  - simpl. tauto.
  - reflexivity.
  - vm_compute. reflexivity.
Defined.

Lemma single_alternative_is_mandatory_witness :
  bool_val only_mac_64 "MAC_64" = true.
Proof.
  apply (single_alternative_is_mandatory single_model single_alt "MAC_64"
           _ _ only_mac_64 (compile_feature_model_eq single_model)).
  - simpl. tauto.
  - reflexivity.
  - vm_compute. reflexivity.
Defined.

Lemma latency_cost_depends_on_witness :
  aeval sample_valuation (latency_cost (feature_vars_of (feature_names sample_model)))
  = aeval other_valuation (latency_cost (feature_vars_of (feature_names sample_model))).
Proof.
  apply (latency_cost_depends_on sample_model _ _ _ _ sample_model_compiled).
  intros x Hx.
  repeat (apply elem_of_cons in Hx as [-> | Hx]; [reflexivity|]).
  by apply elem_of_nil in Hx.
Defined.

Lemma undeclared_cost_features_cost_most_witness :
  (forall feature_vars fm_constraints m,
     compile_feature_model bare_model = Some (feature_vars, fm_constraints) ->
     (aeval m (latency_cost feature_vars) == 59 # 10)%Q) /\
  ((cost_upper_bound sample_bounds "V3" < 59 # 10)%Q ->
   @synthesize_variant search_solver sample_bounds bare_model "V3" = Some None).
Proof.
  apply (@undeclared_cost_features_cost_most search_solver sample_bounds
           bare_model "V3");
    intros H%bare_model_names; discriminate.
Defined.

Lemma result_is_valid_configuration_witness :
  exists feature_vars fm_constraints,
    compile_feature_model sample_model = Some (feature_vars, fm_constraints) /\
    forall iv rv,
      holds_all (valuation_of sample_result iv rv)
        (fm_constraints ++ req_constraints feature_vars
         ++ variant_constraints feature_vars (load_variant "V3")) = true.
Proof.
  apply (@result_is_valid_configuration search_solver sample_bounds sample_model "V3").
  exact sample_run.
Defined.

Lemma result_cost_within_bound_witness :
  exists feature_vars fm_constraints,
    compile_feature_model sample_model = Some (feature_vars, fm_constraints) /\
    forall iv rv,
      (aeval (valuation_of sample_result iv rv) (latency_cost feature_vars)
       <= cost_upper_bound sample_bounds "V3")%Q.
Proof.
  apply (@result_cost_within_bound search_solver sample_bounds sample_model "V3").
  exact sample_run.
Defined.

Lemma secoc_requirements_enforced_witness :
  sample_result !! "Fresh_Counter" = Some true.
Proof.
  apply (@secoc_requirements_enforced search_solver sample_bounds sample_model "V3"
           sample_result
           (Element "requires" [("a", "SecOC_Protection"); ("b", "Fresh_Counter")] [])).
  - exact sample_run.
  - simpl. tauto.
  - reflexivity.
  - reflexivity.
  - apply child_feature_declared. simpl. tauto.
  - apply child_feature_declared. simpl. tauto.
Defined.

Lemma conflicting_preset_infeasible_witness :
  @synthesize_variant search_solver sample_bounds conflict_model "V1" = Some None.
Proof.
  apply (@conflicting_preset_infeasible search_solver sample_bounds conflict_model
           "V1" (Element "excludes" [("a", "CAN"); ("b", "AES_128")] [])
           "CAN" "AES_128").
  - simpl. constructor.
  - simpl. do 2 constructor.
  - simpl. tauto.
  - reflexivity.
  - reflexivity.
  - apply child_feature_declared. simpl. tauto.
  - apply child_feature_declared. simpl. tauto.
Defined.

Lemma window_bound_irrelevant_witness :
  exists cs',
    assertions_with sample_model "V3" sample_bounds (empirical_constraints_with 0 3)
    = Some (feature_vars_of (feature_names sample_model), cs') /\
    satisfiable cs'.
Proof.
  apply (window_bound_irrelevant sample_model "V3" sample_bounds 5 0 3
           _ sample_assertions).
  - exact sample_assertions_eq.
  - exists sample_valuation. exact sample_assertions_hold.
Defined.

Lemma unused_bounds_ignored_witness :
  assertions sample_bounds sample_model "V3" = assertions noisy_bounds sample_model "V3" /\
  @synthesize_variant search_solver sample_bounds sample_model "V3"
  = @synthesize_variant search_solver noisy_bounds sample_model "V3".
Proof.
  apply (@unused_bounds_ignored search_solver sample_bounds noisy_bounds
           sample_model "V3"); reflexivity.
Defined.

(** ** The run on floats, on the sample documents *)

Lemma assertions_scoped_witness :
  Forall (scoped (feature_names sample_model))
    (fm_constraints_of sample_model
     ++ req_constraints (feature_vars_of (feature_names sample_model))
     ++ variant_constraints (feature_vars_of (feature_names sample_model))
          (load_variant "V3")
     ++ [EqA latency_ms (latency_cost (feature_vars_of (feature_names sample_model)))]
     ++ empirical_constraints sample_bounds "V3").
Proof.
  apply (assertions_scoped (of_finite sample_bounds) sample_model "V3" _ _
           (raw_assertions_of_finite sample_bounds sample_model "V3")).
Defined.

(** With an empty CAN log the minimum inter-arrival time is NaN and the run
    ends in [ValueError]. *)
Example empty_log_raises :
  @Raw.synthesize_variant search_solver empty_log_bounds sample_model "V3"
  = inl ValueError.
Proof.
  unfold Raw.synthesize_variant, Raw.assertions, Raw.empirical_constraints.
  by rewrite compile_feature_model_eq.
Qed.
